(** * blake2_check: BLAKE2b checksums of the files of a directory

    A shallow embedding of the four successive variants of the script
    (blake2_sum.py, blake2_sum3.py, blake2_sum4.py and
    blake2b_isos/blake2b_1.py) and the properties of the checksum
    pipeline: digest correctness, chunk-size independence, containment of
    I/O failures, enumeration by extension, reporting and counting.

    Layout:
    - [Blake2b]: the hash function the scripts obtain from
      [hashlib.blake2b()], following RFC 7693 (the one-shot definition of
      section 3.3 and the incremental reference implementation of
      appendix C);
    - [Py]: the fragment of Python the scripts rely on: [bytes.hex],
      [str.lower], [Path.suffix], truthiness, exceptions, the event trace
      of a run (logging calls, progress-bar updates, file operations) and
      the thread pool;
    - [Fs]: directory entries, [stat], [open] and buffered [read];
    - [hashlib], [io] and the read loop the four variants share;
    - one module per source file, with the functions under their source
      names;
    - the observations the statements use and sample files;
    - the properties: the incremental hash against the definition of the
      RFC, the read loop, one file, one worker, the scan. *)

From Stdlib Require Import String Ascii.
From Stdlib Require Import ZArith List Lia Bool Arith Permutation.
From Stdlib.Strings Require Import Byte.
From Equations Require Import Equations.
Import ListNotations.

Local Open Scope Z_scope.

(** ** BLAKE2b (RFC 7693) *)

Module Blake2b.

(** Word size [w = 64], [bb = 128] block bytes, [r = 12] rounds. *)
Definition w : Z := 64.
Definition bb : nat := 128.
Definition wmask : Z := 2 ^ w.

Definition add64 (x y : Z) : Z := (x + y) mod wmask.

(** [ROTR64(x, y) = (x >> y) ^ (x << (64 - y))] on 64-bit words. *)
Definition rotr64 (x n : Z) : Z :=
  Z.lxor (Z.shiftr x n) ((Z.shiftl x (w - n)) mod wmask).

Definition blake2b_iv : list Z :=
  [ 0x6a09e667f3bcc908; 0xbb67ae8584caa73b;
    0x3c6ef372fe94f82b; 0xa54ff53a5f1d36f1;
    0x510e527fade682d1; 0x9b05688c2b3e6c1f;
    0x1f83d9abfb41bd6b; 0x5be0cd19137e2179 ].

Definition sigma : list (list nat) :=
  ([ [ 0; 1; 2; 3; 4; 5; 6; 7; 8; 9; 10; 11; 12; 13; 14; 15 ];
    [ 14; 10; 4; 8; 9; 15; 13; 6; 1; 12; 0; 2; 11; 7; 5; 3 ];
    [ 11; 8; 12; 0; 5; 2; 15; 13; 10; 14; 3; 6; 7; 1; 9; 4 ];
    [ 7; 9; 3; 1; 13; 12; 11; 14; 2; 6; 5; 10; 4; 0; 15; 8 ];
    [ 9; 0; 5; 7; 2; 4; 10; 15; 14; 1; 11; 12; 6; 8; 3; 13 ];
    [ 2; 12; 6; 10; 0; 11; 8; 3; 4; 13; 7; 5; 15; 14; 1; 9 ];
    [ 12; 5; 1; 15; 14; 13; 4; 10; 0; 7; 6; 3; 9; 2; 8; 11 ];
    [ 13; 11; 7; 14; 12; 1; 3; 9; 5; 0; 15; 4; 8; 6; 2; 10 ];
    [ 6; 15; 14; 9; 11; 3; 0; 8; 12; 2; 13; 7; 1; 4; 10; 5 ];
    [ 10; 2; 8; 4; 7; 6; 1; 5; 15; 11; 9; 14; 3; 12; 13; 0 ];
    [ 0; 1; 2; 3; 4; 5; 6; 7; 8; 9; 10; 11; 12; 13; 14; 15 ];
    [ 14; 10; 4; 8; 9; 15; 13; 6; 1; 12; 0; 2; 11; 7; 5; 3 ] ])%nat.

(** Arrays of words: read [v[i]] and write [v[i] = x]. *)
Definition get (v : list Z) (i : nat) : Z := nth i v 0.

Fixpoint set (v : list Z) (i : nat) (x : Z) : list Z :=
  match v, i with
  | [], _ => []
  | _ :: tl, O => x :: tl
  | y :: tl, S j => y :: set tl j x
  end.

(** The mixing function [B2B_G(a, b, c, d, x, y)]. *)
Definition G (v : list Z) (a b c d : nat) (x y : Z) : list Z :=
  let v := set v a (add64 (add64 (get v a) (get v b)) x) in
  let v := set v d (rotr64 (Z.lxor (get v d) (get v a)) 32) in
  let v := set v c (add64 (get v c) (get v d)) in
  let v := set v b (rotr64 (Z.lxor (get v b) (get v c)) 24) in
  let v := set v a (add64 (add64 (get v a) (get v b)) y) in
  let v := set v d (rotr64 (Z.lxor (get v d) (get v a)) 16) in
  let v := set v c (add64 (get v c) (get v d)) in
  let v := set v b (rotr64 (Z.lxor (get v b) (get v c)) 63) in
  v.

Definition round (m : list Z) (v : list Z) (s : list nat) : list Z :=
  let mi (k : nat) := get m (nth k s O) in
  let v := G v 0 4 8 12 (mi 0%nat) (mi 1%nat) in
  let v := G v 1 5 9 13 (mi 2%nat) (mi 3%nat) in
  let v := G v 2 6 10 14 (mi 4%nat) (mi 5%nat) in
  let v := G v 3 7 11 15 (mi 6%nat) (mi 7%nat) in
  let v := G v 0 5 10 15 (mi 8%nat) (mi 9%nat) in
  let v := G v 1 6 11 12 (mi 10%nat) (mi 11%nat) in
  let v := G v 2 7 8 13 (mi 12%nat) (mi 13%nat) in
  let v := G v 3 4 9 14 (mi 14%nat) (mi 15%nat) in
  v.

(** Little-endian load of a 64-bit word, [B2B_GET64]. *)
Definition byte_val (b : byte) : Z := Z.of_N (Byte.to_N b).

Definition get64 (p : list byte) : Z :=
  fold_right (fun b acc => byte_val b + 256 * acc) 0 (firstn 8 p).

Definition words (block : list byte) : list Z :=
  map (fun i => get64 (skipn (8 * i) block)) (seq 0 16).

(** The compression function [F(h, m, t, f)] of section 3.2, with the
    128-bit offset counter given by its two 64-bit halves. *)
Definition F (h : list Z) (block : list byte) (t0 t1 : Z) (last : bool)
  : list Z :=
  let v := (h ++ blake2b_iv)%list in
  let v := set v 12 (Z.lxor (get v 12) t0) in
  let v := set v 13 (Z.lxor (get v 13) t1) in
  let v := if last then set v 14 (Z.lxor (get v 14) (wmask - 1)) else v in
  let v := fold_left (round (words block)) sigma v in
  map (fun i => Z.lxor (get h i) (Z.lxor (get v i) (get v (i + 8))))
      (seq 0 8).

(** Zero padding of a partial block to [bb] bytes. *)
Definition pad (p : list byte) : list byte :=
  (p ++ repeat x00 (bb - length p))%list.

(** The first [nn] bytes of the little-endian encoding of [h]. *)
Definition byte_of_Z (z : Z) : byte :=
  match Byte.of_N (Z.to_N (z mod 256)) with
  | Some b => b
  | None => x00
  end.

Definition out_bytes (nn : nat) (h : list Z) : list byte :=
  map (fun i => byte_of_Z (Z.shiftr (get h (i / 8))
                                    (8 * Z.of_nat (i mod 8))))
      (seq 0 nn).

(** Parameter block of the unkeyed hash with an [nn]-byte digest:
    [h[0] ^= 0x01010000 ^ (kk << 8) ^ nn] with [kk = 0]. *)
Definition h0 (nn : nat) : list Z :=
  set blake2b_iv 0
      (Z.lxor (get blake2b_iv 0) (Z.lxor 0x01010000 (Z.of_nat nn))).

(** *** The one-shot definition (RFC 7693, section 3.3)

    The message of [ll] bytes is padded to [dd] blocks;
    every block but the last is compressed with the offset
    [(i + 1) * bb], the last one with the offset [ll] and the
    finalisation flag. *)
Section OneShot.
Variable nn : nat.
Variable d : list byte.

Definition ll : nat := length d.

Definition dd : nat :=
  if (ll =? 0)%nat then 1%nat else ((ll + bb - 1) / bb)%nat.

Definition block (i : nat) : list byte :=
  pad (firstn bb (skipn (bb * i) d)).

Definition lo (t : Z) : Z := t mod wmask.
Definition hi (t : Z) : Z := (t / wmask) mod wmask.

Definition absorb (k : nat) : list Z :=
  fold_left
    (fun h i =>
       let t := Z.of_nat ((i + 1) * bb) in
       F h (block i) (lo t) (hi t) false)
    (seq 0 k) (h0 nn).

Definition BLAKE2 : list byte :=
  let h := absorb (dd - 1) in
  let t := Z.of_nat ll in
  out_bytes nn (F h (block (dd - 1)) (lo t) (hi t) true).
End OneShot.

(** BLAKE2b-512. *)
Definition blake2b_512 (d : list byte) : list byte := BLAKE2 64 d.

(** *** The incremental implementation (RFC 7693, appendix C)

    [b] holds the [c] bytes of the input buffer filled so far (the C
    array has 128 cells and the fill pointer [c]); [h] is the chained
    state, [t0], [t1] the two halves of the byte counter. *)
Record blake2b_ctx : Type := mk_ctx {
  b : list byte;
  h : list Z;
  t0 : Z;
  t1 : Z;
  outlen : nat
}.

Definition c (ctx : blake2b_ctx) : nat := length (b ctx).

Definition blake2b_init (outlen : nat) : blake2b_ctx :=
  {| b := []; h := h0 outlen; t0 := 0; t1 := 0; outlen := outlen |}.

(** [ctx->t[0] += ctx->c; if (ctx->t[0] < ctx->c) ctx->t[1]++;] *)
Definition add_counter (ctx : blake2b_ctx) : blake2b_ctx :=
  let n := Z.of_nat (c ctx) in
  let t0' := add64 (t0 ctx) n in
  let t1' := if t0' <? n then add64 (t1 ctx) 1 else t1 ctx in
  {| b := b ctx; h := h ctx; t0 := t0'; t1 := t1'; outlen := outlen ctx |}.

Definition blake2b_compress (ctx : blake2b_ctx) (last : bool)
  : blake2b_ctx :=
  {| b := b ctx;
     h := F (h ctx) (b ctx) (t0 ctx) (t1 ctx) last;
     t0 := t0 ctx; t1 := t1 ctx; outlen := outlen ctx |}.

(** One iteration of the loop of [blake2b_update]: a full buffer is
    compressed before the next byte is stored. *)
Definition update_byte (ctx : blake2b_ctx) (x : byte) : blake2b_ctx :=
  let ctx :=
    if (c ctx =? bb)%nat then
      let ctx := blake2b_compress (add_counter ctx) false in
      {| b := []; h := h ctx; t0 := t0 ctx; t1 := t1 ctx;
         outlen := outlen ctx |}
    else ctx in
  {| b := (b ctx ++ [x])%list; h := h ctx; t0 := t0 ctx; t1 := t1 ctx;
     outlen := outlen ctx |}.

Definition blake2b_update (ctx : blake2b_ctx) (data : list byte)
  : blake2b_ctx :=
  fold_left update_byte data ctx.

Definition blake2b_final (ctx : blake2b_ctx) : list byte :=
  let ctx := add_counter ctx in
  let ctx := {| b := pad (b ctx); h := h ctx; t0 := t0 ctx; t1 := t1 ctx;
                outlen := outlen ctx |} in
  let ctx := blake2b_compress ctx true in
  out_bytes (outlen ctx) (h ctx).

(** The state of the implementation once the message [d] has been fed
    in: [compressed d] blocks have been compressed, every full block
    but the one still in the buffer. *)
Definition compressed (d : list byte) : nat := ((length d - 1) / bb)%nat.

Definition fed (nn : nat) (d : list byte) : blake2b_ctx :=
  let k := compressed d in
  {| b := skipn (bb * k) d; h := absorb nn d k;
     t0 := lo (Z.of_nat (bb * k)); t1 := hi (Z.of_nat (bb * k));
     outlen := nn |}.

End Blake2b.

(** ** The Python fragment *)

Module Py.

(** [bytes.hex()]: two lower-case hexadecimal digits per byte. *)
Definition hex_digit (n : N) : ascii :=
  match n with
  | 0%N => "0" | 1%N => "1" | 2%N => "2" | 3%N => "3"
  | 4%N => "4" | 5%N => "5" | 6%N => "6" | 7%N => "7"
  | 8%N => "8" | 9%N => "9" | 10%N => "a" | 11%N => "b"
  | 12%N => "c" | 13%N => "d" | 14%N => "e" | _ => "f"
  end%char.

Fixpoint hex (bs : list byte) : string :=
  match bs with
  | [] => EmptyString
  | x :: tl =>
      let n := Byte.to_N x in
      String (hex_digit (n / 16)) (String (hex_digit (n mod 16)) (hex tl))
  end.

(** [bytes] literal from a [str] of ASCII characters. *)
Definition bytes_of_string (s : string) : list byte :=
  map byte_of_ascii (list_ascii_of_string s).

(** [str.lower()] on ASCII text: [A-Z] go to [a-z], every other
    character is kept. (File names and extensions are modelled as ASCII
    strings; the Unicode case tables are outside the model.) *)
Definition lower_char (ch : ascii) : ascii :=
  let n := nat_of_ascii ch in
  if ((65 <=? n) && (n <=? 90))%nat then ascii_of_nat (n + 32) else ch.

Fixpoint lower (s : string) : string :=
  match s with
  | EmptyString => EmptyString
  | String ch tl => String (lower_char ch) (lower tl)
  end.

(** [PurePath.suffix]:
    [i = name.rfind('.')];
    [name[i:]] if [0 < i < len(name) - 1], and [''] otherwise. *)
Fixpoint from_last_dot (s : string) : option string :=
  match s with
  | EmptyString => None
  | String ch tl =>
      match from_last_dot tl with
      | Some r => Some r
      | None => if Ascii.eqb ch "." then Some s else None
      end
  end.

Definition suffix (name : string) : string :=
  match name with
  | EmptyString => EmptyString
  | String _ tl =>
      match from_last_dot tl with
      | Some r => if (String.length r =? 1)%nat then EmptyString else r
      | None => EmptyString
      end
  end.

(** [sub in s] on strings. *)
Fixpoint contains (sub s : string) : bool :=
  String.prefix sub s ||
  match s with
  | EmptyString => false
  | String _ tl => contains sub tl
  end.

(** Truthiness of an [Optional[str]]: [None] and [''] are false. *)
Definition truthy (v : option string) : bool :=
  match v with
  | Some (String _ _) => true
  | _ => false
  end.

(** *** Exceptions, events and the monad of a run *)

Inductive exn : Type :=
| OSError (strerror : string)
| ValueError (msg : string)
| ZeroDivisionError (msg : string)
| OverflowError (msg : string)
| MemoryError.

Inductive level : Type := DEBUG | INFO | WARNING | ERROR.

(** The messages of the scripts, by their format string; the numbers
    are kept as numbers. Wall-clock measurements ([time.time()], the
    [Time:] field of the completion message, the [asctime] prefix of
    the log format) are not part of the model. *)
Inductive message : Type :=
| Processing (name : string) (file_size : Z)
    (* "Processing file: {name} ({file_size} bytes)" *)
| ProcessedChunk (chunk_count : nat) (len : nat)
    (* "Processed chunk {chunk_count}: {len(chunk)} bytes" *)
| Completed (name : string) (file_size : Z)
    (* "Completed: {name} | Size: {file_size} bytes | Time: ..." *)
| ErrorReading (path : string) (e : string)
    (* "Error reading file {file_path}: {e}" *)
| DigestLine (name : string) (blake2_hash : string)
    (* "{file.name:40} BLAKE2b: {blake2_hash}" *)
| NotValidDirectory (directory : string)
    (* "The specified path '{directory}' is not a valid directory." *)
| NoFilesFound (ext : string) (directory : string)
    (* "No files with extension '{ext}' found in {directory}." *)
| Found (n : nat) (ext : string) (directory : string)
    (* "Found {len(files)} file(s) with extension '{ext}' in ..." *)
| ChecksumCompleted (success_count : nat) (total : nat)
    (* "Checksum completed. {success_count}/{len(files)} files
        processed successfully." *)
| VerboseEnabled.
    (* "Verbose mode enabled: Showing detailed processing logs..." *)

Inductive event : Type :=
| Log (l : level) (m : message)     (* logging.debug/info/warning/error *)
| Print (m : message)               (* print *)
| PbarUpdate (n : nat)              (* an update of an enabled tqdm bar *)
| IoStat (path : string)            (* Path.stat() *)
| IoOpen (path : string)            (* Path.open('rb') *)
| IoRead (path : string) (size : Z) (* f.read(size) *)
| IoClose (path : string).          (* leaving the [with] block *)

Inductive result (A : Type) : Type :=
| Return (a : A)
| Raise (e : exn).
Arguments Return {A} a.
Arguments Raise {A} e.

(** A computation: the events it emits, in order, and how it ends. *)
Definition M (A : Type) : Type := (list event * result A)%type.

Definition ret {A} (a : A) : M A := ([], Return a).

Definition bind {A B} (m : M A) (k : A -> M B) : M B :=
  match m with
  | (tr, Return a) => let (tr', r) := k a in ((tr ++ tr')%list, r)
  | (tr, Raise e) => (tr, Raise e)
  end.

Definition emit (ev : event) : M unit := ([ev], Return tt).
Definition raise {A} (e : exn) : M A := ([], Raise e).

(** [try: body except (OSError, IOError) as e: handler(e)];
    [IOError] is an alias of [OSError]. *)
Definition try_except_OSError {A} (body : M A) (handler : string -> M A)
  : M A :=
  match body with
  | (tr, Raise (OSError e)) =>
      let (tr', r) := handler e in ((tr ++ tr')%list, r)
  | _ => body
  end.

(** [try: body finally: cleanup], the exit of a [with] block. *)
Definition finally {A} (body : M A) (cleanup : list event) : M A :=
  ((fst body ++ cleanup)%list, snd body).

Definition trace {A} (m : M A) : list event := fst m.
Definition outcome {A} (m : M A) : result A := snd m.

Definition logging_debug (m : message) : M unit := emit (Log DEBUG m).
Definition logging_info (m : message) : M unit := emit (Log INFO m).
Definition logging_warning (m : message) : M unit := emit (Log WARNING m).
Definition logging_error (m : message) : M unit := emit (Log ERROR m).
(** [print] is taken to succeed: the standard output can encode the
    text. *)
Definition print (m : message) : M unit := emit (Print m).

(** A parameter with a default value: [None] when the caller leaves it
    out. *)
Definition default {A} (d : A) (arg : option A) : A :=
  match arg with Some a => a | None => d end.

(** [for x in xs: body(x)]. *)
Fixpoint for_each {A} (xs : list A) (body : A -> M unit) : M unit :=
  match xs with
  | [] => ret tt
  | x :: rest => bind (body x) (fun _ => for_each rest body)
  end.

(** *** [concurrent.futures.ThreadPoolExecutor]

    A submitted task runs to its end on a worker thread whatever the
    other tasks do; its future holds the value it returned or the
    exception it raised. The order in which the tasks finish is chosen
    by the scheduler: [sched] rearranges the submitted tasks into their
    completion order. The events of one task are kept together in the
    trace; the finer interleavings of the log lines of concurrent
    workers are not modelled. *)
Definition future (A : Type) : Type := M A.
Definition scheduler : Type := forall A : Type, list A -> list A.

Definition submit {A} (task : M A) : future A := task.

(** [as_completed(futures)]. *)
Definition as_completed {A} (sched : scheduler) (futures : list (future A))
  : list (future A) :=
  sched _ futures.

(** [future.result()]: the value of the task, or its exception raised
    again in the caller. The events of the task were emitted by its
    worker. *)
Definition future_result {A} (fut : future A) : M A := ([], outcome fut).

(** [with ThreadPoolExecutor() as executor: body]: leaving the block
    waits for every submitted task, also when [body] raises, so the
    events of all workers are in the trace. *)
Definition with_executor {A B} (sched : scheduler)
  (futures : list (future A)) (body : M B) : M B :=
  ((concat (map trace (as_completed sched futures)) ++ trace body)%list,
   outcome body).

(** The exit status of the interpreter: 0 when the script ends, 1 when
    an exception reaches the top level. *)
Definition exit_code {A} (script : M A) : Z :=
  match outcome script with
  | Return _ => 0
  | Raise _ => 1
  end.

End Py.

Declare Scope py_scope.
Delimit Scope py_scope with py.
Notation "x <- m ;; k" := (Py.bind m (fun x => k))
  (at level 61, m at next level, right associativity) : py_scope.
Notation "m ;; k" := (Py.bind m (fun _ => k))
  (at level 61, right associativity) : py_scope.


Local Open Scope py_scope.

Module io.
(** CPython's [io.DEFAULT_BUFFER_SIZE]. *)
Definition DEFAULT_BUFFER_SIZE : Z := 8192.
End io.

(** ** The files and directories a run meets *)

Module Fs.
Import Py.

(** A directory entry, as the script observes it. [is_file] is what
    [Path.is_file()] answers during enumeration; the other fields are
    what the later calls on the same path answer, so a file that is
    removed between enumeration and hashing has [is_file = true] and a
    failing [stat] and [open]. *)
Record file : Type := mk_file {
  name : string;                     (* Path.name *)
  path : string;                     (* str(path) *)
  is_file : bool;                    (* Path.is_file() *)
  stat : string + Z;                 (* Path.stat(): strerror or st_size *)
  open_error : option string;        (* Path.open('rb') raises OSError *)
  content : list byte;               (* the bytes of the file *)
  read_error : option (nat * string);(* the read call of this index,
                                        counted from 0, raises OSError;
                                        the text is [str(e)] *)
  memory : Z                         (* the largest [bytes] object the
                                        process can allocate while it
                                        reads this file *)
}.

(** What the script finds at a path. *)
Inductive lookup : Type :=
| Listing (entries : list file)
    (* a directory whose entries can be read *)
| NoDirectory (strerror : string)
    (* nothing there, or something that is no directory: [is_dir()]
       answers False, [iterdir()] raises FileNotFoundError or
       NotADirectoryError *)
| NoAccess (strerror : string)
    (* [os.stat] fails with an errno that [is_dir()] does not ignore
       (a component that cannot be searched, a name that is too long):
       [is_dir()] and [iterdir()] raise OSError *)
| NoListing (strerror : string).
    (* a directory whose entries cannot be read: [is_dir()] answers
       True, [iterdir()] raises PermissionError *)

Definition filesystem : Type := string -> lookup.

(** [Path.is_dir()]. *)
Definition is_dir (fs : filesystem) (directory : string) : M bool :=
  match fs directory with
  | Listing _ | NoListing _ => ret true
  | NoDirectory _ => ret false
  | NoAccess e => raise (OSError e)
  end.

(** [Path.iterdir()], run to its end. *)
Definition iterdir (fs : filesystem) (directory : string) : M (list file) :=
  match fs directory with
  | Listing entries => ret entries
  | NoDirectory e | NoAccess e | NoListing e => raise (OSError e)
  end.

Definition path_stat (p : file) : M Z :=
  emit (IoStat (path p)) ;;
  match stat p with
  | inr st_size => ret st_size
  | inl e => raise (OSError e)
  end.

(** An open binary file object: the bytes not yet read and the number
    of [read] calls made. *)
Record handle : Type := mk_handle {
  h_file : file;
  data : list byte;
  calls : nat
}.

(** [BufferedReader.read(size)] on a regular file, in a 64-bit CPython.
    The argument is converted to a C [ssize_t] first, which raises
    [OverflowError] outside of -2^63 .. 2^63 - 1; a [size] below -1 is
    then refused with [ValueError]; the [bytes] object for the result is
    allocated before any I/O, [size] bytes or, for [-1], what is left of
    the file: this raises [OverflowError] when it is more than a [bytes]
    object can hold, and [MemoryError] when it is more than the process
    can get. A buffer of the default size can always be had: the file
    object holds one. Then [-1] reads to the end of the file, and any
    other [size] the next [size] bytes, fewer only at the end of the
    file. *)

(** The largest [bytes] object: [PY_SSIZE_T_MAX] less the 33 bytes of
    the object header and the final zero. *)
Definition bytes_max : Z := 2 ^ 63 - 34.

Definition buffer_limit (p : file) : Z :=
  Z.max io.DEFAULT_BUFFER_SIZE (Z.min (memory p) bytes_max).

Definition wanted (size : Z) (rest : list byte) : Z :=
  if size =? -1 then Z.of_nat (length rest) else size.

Definition refused (f : handle) (size : Z) : option exn :=
  if (size <? - 2 ^ 63) || (2 ^ 63 <=? size) then
    Some (OverflowError "cannot fit 'int' into an index-sized integer")
  else if size <? -1 then
    Some (ValueError "read length must be non-negative or -1")
  else if bytes_max <? wanted size (data f) then
    Some (OverflowError "byte string is too large")
  else if buffer_limit (h_file f) <? wanted size (data f) then
    Some MemoryError
  else None.

Definition chunk_of (size : Z) (rest : list byte) : list byte :=
  if size =? -1 then rest else firstn (Z.to_nat size) rest.

Definition rest_after (size : Z) (rest : list byte) : list byte :=
  if size =? -1 then [] else skipn (Z.to_nat size) rest.

Definition fails_now (f : handle) : option string :=
  match read_error (h_file f) with
  | Some (k, e) => if (k =? calls f)%nat then Some e else None
  | None => None
  end.

Definition advance (f : handle) (rest : list byte) : handle :=
  {| h_file := h_file f; data := rest; calls := S (calls f) |}.

Definition read (f : handle) (size : Z) : result (list byte) * handle :=
  match refused f size with
  | Some e => (Raise e, f)
  | None =>
      match fails_now f with
      | Some e => (Raise (OSError e), advance f (data f))
      | None =>
          (Return (chunk_of size (data f)),
           advance f (rest_after size (data f)))
      end
  end.

(** A file object just opened, positioned at the start. *)
Definition opened (p : file) : handle :=
  {| h_file := p; data := content p; calls := 0 |}.

(** [with file_path.open('rb') as f: body]. *)
Definition with_open {A} (p : file) (body : handle -> M A) : M A :=
  emit (IoOpen (path p)) ;;
  match open_error p with
  | Some e => raise (OSError e)
  | None => finally (body (opened p)) [IoClose (path p)]
  end.

End Fs.

(** ** [hashlib.blake2b()] *)

Module hashlib.

(** The hash object: [blake2b()] with its default 64-byte digest,
    [update] and [hexdigest]. *)
Definition blake2b : Blake2b.blake2b_ctx := Blake2b.blake2b_init 64.

Definition update (blake2 : Blake2b.blake2b_ctx) (chunk : list byte)
  : Blake2b.blake2b_ctx :=
  Blake2b.blake2b_update blake2 chunk.

Definition hexdigest (blake2 : Blake2b.blake2b_ctx) : string :=
  Py.hex (Blake2b.blake2b_final blake2).

End hashlib.

(** The hash is never unfolded by simplification; concrete digests are
    obtained by evaluation. *)
Arguments Blake2b.F : simpl never.
Arguments Blake2b.BLAKE2 : simpl never.
Arguments Blake2b.blake2b_512 : simpl never.
Arguments Blake2b.blake2b_update : simpl never.
Arguments Blake2b.blake2b_final : simpl never.
Arguments hashlib.blake2b : simpl never.
Arguments hashlib.update : simpl never.
Arguments hashlib.hexdigest : simpl never.

(** ** The read loop shared by the four variants

    The scripts write the same loop in four ways:
    - [for chunk in iter(lambda: f.read(size), b''): blake2.update(chunk)]
    - [while chunk := f.read(size): blake2.update(chunk); ...]
    - [for chunk in tqdm(iter(lambda: f.read(size), b''), ...): ...]
    - [while True: chunk = f.read(size); if not chunk: break; ...]

    Each reads a chunk, stops at the first empty one, and otherwise
    folds the chunk into the hash object and runs the side effects of the
    variant, [after chunk_count chunk]. *)

Definition inspect {A} (a : A) : {x : A | a = x} := exist _ a eq_refl.

Equations? read_chunks (after : nat -> list byte -> list Py.event)
  (size : Z) (f : Fs.handle) (chunk_count : nat)
  (blake2 : Blake2b.blake2b_ctx)
  : Py.M Blake2b.blake2b_ctx by wf (length (Fs.data f)) lt :=
  read_chunks after size f chunk_count blake2
    with inspect (Fs.read f size) := {
    | exist _ (Py.Raise e, _) _ :=
        ([Py.IoRead (Fs.path (Fs.h_file f)) size], Py.Raise e)
    | exist _ (Py.Return [], _) _ :=
        ([Py.IoRead (Fs.path (Fs.h_file f)) size], Py.Return blake2)
    | exist _ (Py.Return (x :: tl), f') Hread :=
        Py.bind
          (Py.IoRead (Fs.path (Fs.h_file f)) size
             :: after (S chunk_count) (x :: tl),
           Py.Return tt)
          (fun _ => read_chunks after size f' (S chunk_count)
                                (hashlib.update blake2 (x :: tl))) }.
Proof.
  (* a non-empty chunk leaves strictly fewer bytes to read *)
  unfold Fs.read in Hread.
  destruct (Fs.refused f size); [discriminate|].
  destruct (Fs.fails_now f); [discriminate|].
  injection Hread as Hchunk Hf'. subst f'. cbn [Fs.advance Fs.data].
  unfold Fs.chunk_of, Fs.rest_after in *.
  destruct (size =? -1).
  - rewrite Hchunk. cbn [length]. lia.
  - rewrite length_skipn.
    destruct (Z.to_nat size); [discriminate|].
    destruct (Fs.data f); [discriminate|]. cbn [length]. lia.
Qed.

(** ** blake2_sum.py *)

Module blake2_sum.
Import Py Fs.

(** The loop body does nothing after [blake2.update(chunk)]. *)
Definition after_chunk (chunk_count : nat) (chunk : list byte)
  : list event := [].

Definition calculate_blake2b (file_path : file) : M string :=
  let blake2 := hashlib.blake2b in
  try_except_OSError
    (blake2 <- with_open file_path (fun f =>
                 read_chunks after_chunk io.DEFAULT_BUFFER_SIZE
                             f 0 blake2) ;;
     ret (hashlib.hexdigest blake2))
    (fun e => ret ("Error: " ++ e)%string).

Definition check_blake2_sums (fs : filesystem) (directory : string)
  : M unit :=
  entries <- iterdir fs directory ;;
  for_each entries (fun file =>
    if is_file file && String.eqb (lower (suffix (name file))) ".iso"
    then
      blake2_hash <- calculate_blake2b file ;;
      print (DigestLine (name file) blake2_hash)
    else ret tt).

Definition main (fs : filesystem) : M unit := check_blake2_sums fs ".".

End blake2_sum.

(** ** blake2_sum3.py *)

Module blake2_sum3.
Import Py Fs.

(** [chunk_count += 1; if verbose: logging.debug(...)]. *)
Definition after_chunk (verbose : bool) (chunk_count : nat)
  (chunk : list byte) : list event :=
  if verbose
  then [Log DEBUG (ProcessedChunk chunk_count (length chunk))]
  else [].

Definition calculate_blake2b (file_path : file) (verbose : bool)
  : M (option string) :=
  let blake2 := hashlib.blake2b in
  file_size <- path_stat file_path ;;
  logging_info (Processing (name file_path) file_size) ;;
  try_except_OSError
    (blake2 <- with_open file_path (fun f =>
                 read_chunks (after_chunk verbose)
                             io.DEFAULT_BUFFER_SIZE f 0 blake2) ;;
     logging_info (Completed (name file_path) file_size) ;;
     ret (Some (hashlib.hexdigest blake2)))
    (fun e =>
       logging_error (ErrorReading (path file_path) e) ;;
       ret None).

Definition check_blake2_sums (fs : filesystem) (directory : string)
  (verbose : bool) : M unit :=
  valid <- is_dir fs directory ;;
  if negb valid then
    logging_error (NotValidDirectory directory)
  else
    entries <- iterdir fs directory ;;
    for_each entries (fun file =>
      if is_file file && String.eqb (lower (suffix (name file))) ".iso"
      then
        blake2_hash <- calculate_blake2b file verbose ;;
        if truthy blake2_hash
        then logging_info
               (DigestLine (name file) (default EmptyString blake2_hash))
        else ret tt
      else ret tt).

(** [args.directory] defaults to ['.']. *)
Definition main (fs : filesystem) (directory : option string)
  (verbose : bool) : M unit :=
  (if verbose then print VerboseEnabled else ret tt) ;;
  check_blake2_sums fs (default "."%string directory) verbose.

End blake2_sum3.

(** ** blake2_sum4.py *)

Module blake2_sum4.
Import Py Fs.

(** The progress bar wraps the chunk iterator and counts one step per
    chunk; its [total] argument, [(file_size // chunk_size) + 1], is
    evaluated before the first read. *)
Definition after_chunk (verbose : bool) (chunk_count : nat)
  (chunk : list byte) : list event :=
  if verbose then [PbarUpdate 1] else [].

Definition tqdm_total (file_size chunk_size : Z) : M Z :=
  if chunk_size =? 0
  then raise (ZeroDivisionError "integer division or modulo by zero")
  else ret (file_size / chunk_size + 1).

Definition calculate_blake2b (file_path : file) (verbose : bool)
  (chunk_size : option Z) : M (option string) :=
  let chunk_size := default io.DEFAULT_BUFFER_SIZE chunk_size in
  let blake2 := hashlib.blake2b in
  file_size <- path_stat file_path ;;
  logging_info (Processing (name file_path) file_size) ;;
  try_except_OSError
    (blake2 <- with_open file_path (fun f =>
                 tqdm_total file_size chunk_size ;;
                 read_chunks (after_chunk verbose) chunk_size
                             f 0 blake2) ;;
     logging_info (Completed (name file_path) file_size) ;;
     ret (Some (hashlib.hexdigest blake2)))
    (fun e =>
       logging_error (ErrorReading (path file_path) e) ;;
       ret None).

Definition process_file (file : file) (verbose : bool) (chunk_size : Z)
  : M unit :=
  blake2_hash <- calculate_blake2b file verbose (Some chunk_size) ;;
  if truthy blake2_hash
  then logging_info
         (DigestLine (name file) (default EmptyString blake2_hash))
  else ret tt.

(** The futures are never asked for their result, so an exception of a
    worker stays in its future. *)
Definition check_blake2_sums (sched : scheduler) (fs : filesystem)
  (directory : string) (verbose : bool) (ext : option string)
  (chunk_size : option Z) : M unit :=
  let ext := default ".iso"%string ext in
  let chunk_size := default io.DEFAULT_BUFFER_SIZE chunk_size in
  valid <- is_dir fs directory ;;
  if negb valid then
    logging_error (NotValidDirectory directory)
  else
    entries <- iterdir fs directory ;;
    let submitted :=
      map (fun file => submit (process_file file verbose chunk_size))
          (filter (fun file =>
                     is_file file &&
                     String.eqb (lower (suffix (name file))) ext)
                  entries) in
    with_executor sched submitted (ret tt).

Definition main (sched : scheduler) (fs : filesystem)
  (directory : option string) (verbose : bool) (ext : option string)
  (chunk_size : option Z) : M unit :=
  (if verbose then print VerboseEnabled else ret tt) ;;
  check_blake2_sums sched fs (default "."%string directory) verbose
    (Some (default ".iso"%string ext))
    (Some (default io.DEFAULT_BUFFER_SIZE chunk_size)).

End blake2_sum4.

(** ** blake2b_isos/blake2b_1.py *)

Module blake2b_1.
Import Py Fs.

(** [pbar.update(len(chunk))]; the bar is disabled unless verbose. *)
Definition after_chunk (verbose : bool) (chunk_count : nat)
  (chunk : list byte) : list event :=
  if verbose then [PbarUpdate (length chunk)] else [].

Definition calculate_blake2b (file_path : file) (verbose : bool)
  (chunk_size : option Z) : M (option string) :=
  let chunk_size := default io.DEFAULT_BUFFER_SIZE chunk_size in
  let blake2 := hashlib.blake2b in
  file_size <- path_stat file_path ;;
  logging_info (Processing (name file_path) file_size) ;;
  try_except_OSError
    (blake2 <- with_open file_path (fun f =>
                 read_chunks (after_chunk verbose) chunk_size
                             f 0 blake2) ;;
     logging_info (Completed (name file_path) file_size) ;;
     ret (Some (hashlib.hexdigest blake2)))
    (fun e =>
       logging_error (ErrorReading (path file_path) e) ;;
       ret None).

Definition process_file (file : file) (verbose : bool) (chunk_size : Z)
  : M (option string) :=
  blake2_hash <- calculate_blake2b file verbose (Some chunk_size) ;;
  (if truthy blake2_hash
   then logging_info
          (DigestLine (name file) (default EmptyString blake2_hash))
   else ret tt) ;;
  ret blake2_hash.

(** [for future in as_completed(futures): result = future.result();
     if result: success_count += 1]. *)
Fixpoint count_results (completed : list (future (option string)))
  (success_count : nat) : M nat :=
  match completed with
  | [] => ret success_count
  | fut :: rest =>
      result <- future_result fut ;;
      count_results rest
        (if truthy result then S success_count else success_count)
  end.

(** [[f for f in dir_path.iterdir()
        if f.is_file() and f.suffix.lower() == ext]]. *)
Definition matching_files (entries : list file) (ext : string)
  : list file :=
  filter (fun f => is_file f && String.eqb (lower (suffix (name f))) ext)
         entries.

Definition check_blake2_sums (sched : scheduler) (fs : filesystem)
  (directory : string) (verbose : bool) (ext : option string)
  (chunk_size : option Z) : M unit :=
  let ext := default ".iso"%string ext in
  let chunk_size := default io.DEFAULT_BUFFER_SIZE chunk_size in
  valid <- is_dir fs directory ;;
  if negb valid then
    logging_error (NotValidDirectory directory)
  else
    entries <- iterdir fs directory ;;
    let files := matching_files entries ext in
    match files with
    | [] => logging_warning (NoFilesFound ext directory)
    | _ :: _ =>
        logging_info (Found (length files) ext directory) ;;
        let futures :=
          map (fun file => submit (process_file file verbose chunk_size))
              files in
        success_count <-
          with_executor sched futures
            (count_results (as_completed sched futures) 0) ;;
        logging_info (ChecksumCompleted success_count (length files))
    end.

Definition main (sched : scheduler) (fs : filesystem)
  (directory : option string) (verbose : bool) (ext : option string)
  (chunk_size : option Z) : M unit :=
  (if verbose then logging_debug VerboseEnabled else ret tt) ;;
  check_blake2_sums sched fs (default "."%string directory) verbose
    (Some (default ".iso"%string ext))
    (Some (default io.DEFAULT_BUFFER_SIZE chunk_size)).

End blake2b_1.

(** ** Observations on files, runs and schedulers *)

(** A file that can be examined, opened and read to its end. *)
Definition readable (p : Fs.file) : Prop :=
  (exists st_size, Fs.stat p = inr st_size) /\
  Fs.open_error p = None /\ Fs.read_error p = None.

(** [read] takes the chunk size [size] for the file [p]: it fits a C
    [ssize_t], it is not below -1, and the [bytes] object it asks for,
    [size] bytes or the whole file for [-1], can be allocated. *)
Definition takes (p : Fs.file) (size : Z) : Prop :=
  -1 <= size < 2 ^ 63 /\
  Fs.wanted size (Fs.content p) <= Fs.buffer_limit p.

(** The extension of [f] is the target, letter case apart. *)
Definition matches_ci (ext : string) (f : Fs.file) : bool :=
  Fs.is_file f &&
  String.eqb (Py.lower (Py.suffix (Fs.name f))) (Py.lower ext).

Definition is_read (ev : Py.event) : bool :=
  match ev with Py.IoRead _ _ => true | _ => false end.

(** The report line of a file: its digest line or its error line. *)
Definition is_report (ev : Py.event) : bool :=
  match ev with
  | Py.Log _ (Py.DigestLine _ _) => true
  | Py.Log _ (Py.ErrorReading _ _) => true
  | _ => false
  end.

Definition is_summary (ev : Py.event) : bool :=
  match ev with
  | Py.Log _ (Py.ChecksumCompleted _ _) => true
  | _ => false
  end.

(** A scheduler lets every submitted task finish, once. *)
Definition fair (sched : Py.scheduler) : Prop :=
  forall (A : Type) (l : list A), Permutation (sched A l) l.

Definition in_order : Py.scheduler := fun _ l => l.
Definition last_first : Py.scheduler := fun _ l => rev l.

(** *** Sample files and directories *)

Module Sample.
Import Fs.

Definition regular (name text : string) : file :=
  {| name := name; path := ("isos/" ++ name)%string; is_file := true;
     stat := inr (Z.of_nat (String.length text)); open_error := None;
     content := Py.bytes_of_string text; read_error := None;
     memory := 2 ^ 30 |}.

(** Removed after the directory was listed. *)
Definition vanished (p : file) : file :=
  {| name := name p; path := path p; is_file := is_file p;
     stat := inl "No such file or directory"%string;
     open_error := Some "No such file or directory"%string;
     content := content p; read_error := read_error p;
     memory := memory p |}.

Definition locked (p : file) : file :=
  {| name := name p; path := path p; is_file := is_file p;
     stat := stat p; open_error := Some "Permission denied"%string;
     content := content p; read_error := read_error p;
     memory := memory p |}.

(** The read call of index [k] meets a device error. *)
Definition faulty (k : nat) (p : file) : file :=
  {| name := name p; path := path p; is_file := is_file p;
     stat := stat p; open_error := open_error p;
     content := content p;
     read_error := Some (k, "Input/output error"%string);
     memory := memory p |}.

(** The directory "isos" and nothing else. *)
(** The first read fails as a read of /proc/self/mem does; the text is
    [str(e)], and an [OSError] raised by [read] carries no file name. *)
Definition unreadable (p : file) : file :=
  {| name := name p; path := path p; is_file := is_file p;
     stat := stat p; open_error := open_error p;
     content := content p;
     read_error := Some (0%nat, "[Errno 5] Input/output error"%string);
     memory := memory p |}.

(** The directory "isos" and nothing else. *)
Definition listing (entries : list file) : filesystem :=
  fun directory =>
    if String.eqb directory "isos" then Listing entries
    else NoDirectory "No such file or directory".

Definition hello_digest : string :=
  ("e4cfa39a3d37be31c59609e807970799caa68a19bfaa15135f165085e01d41a6" ++
   "5ba1e1b146aeb6bd0092b49eac214c103ccfa3a365954bbbe52f74a2b3620c94")
  %string.

Definition empty_digest : string :=
  ("786a02f742015903c6c6fd852552d272912f4740e15847618a86e217f71f5419" ++
   "d25e1031afee585313896444934eb04b903a685b1448b755d56f701afe9be2ce")
  %string.

Definition abc_digest : string :=
  ("ba80a53f981c4d0d6a2797b69f12f6e94c212f14685ac4b74b12bb6fdbffa2d1" ++
   "7d87c5392aab792dc252d5de4533cc9518d38aa8dbf1925ab92386edd4009923")
  %string.

End Sample.

(** *** Observations on the chunks and the lines of a run *)

(** The non-empty chunks that reads of [size] bytes deliver, in order. *)
Equations? chunks (size : nat) (rest : list byte) : list (list byte)
  by wf (length rest) lt :=
  chunks O _ := [];
  chunks _ [] := [];
  chunks (S k) (x :: tl) :=
    firstn (S k) (x :: tl) :: chunks (S k) (skipn (S k) (x :: tl)).
Proof. rewrite length_skipn. cbn [length]. lia. Qed.

(** The steps of the progress bar. *)
Definition pbar_steps (tr : list Py.event) : list nat :=
  flat_map (fun ev => match ev with Py.PbarUpdate n => [n] | _ => [] end) tr.

(** The debug lines of blake2_sum3.py: chunk number and chunk length. *)
Definition chunk_lines (tr : list Py.event) : list (nat * nat) :=
  flat_map (fun ev =>
              match ev with
              | Py.Log Py.DEBUG (Py.ProcessedChunk i n) => [(i, n)]
              | _ => []
              end) tr.

(** The digest lines that were logged, and those that were printed: file
    name and text. *)
Definition digest_lines (tr : list Py.event) : list (string * string) :=
  flat_map (fun ev =>
              match ev with
              | Py.Log _ (Py.DigestLine name text) => [(name, text)]
              | _ => []
              end) tr.

Definition printed_lines (tr : list Py.event) : list (string * string) :=
  flat_map (fun ev =>
              match ev with
              | Py.Print (Py.DigestLine name text) => [(name, text)]
              | _ => []
              end) tr.

(** The error lines that were logged: path and cause. *)
Definition error_lines (tr : list Py.event) : list (string * string) :=
  flat_map (fun ev =>
              match ev with
              | Py.Log _ (Py.ErrorReading path e) => [(path, e)]
              | _ => []
              end) tr.

(** A future whose result counts as a success in the summary. *)
Definition delivers (fut : Py.future (option string)) : bool :=
  match Py.outcome fut with
  | Py.Return r => Py.truthy r
  | Py.Raise _ => false
  end.

Definition is_print (ev : Py.event) : bool :=
  match ev with Py.Print _ => true | _ => false end.

Definition is_close (ev : Py.event) : bool :=
  match ev with Py.IoClose _ => true | _ => false end.

Definition is_hex_digit (ch : ascii) : bool :=
  let n := nat_of_ascii ch in
  ((48 <=? n) && (n <=? 57) || (97 <=? n) && (n <=? 102))%nat.

Fixpoint all_chars (P : ascii -> bool) (s : string) : bool :=
  match s with
  | EmptyString => true
  | String ch tl => P ch && all_chars P tl
  end.

(** The files of a listing that variants with the fixed or given target
    hash. *)
Definition selected (ext : string) (f : Fs.file) : bool :=
  Fs.is_file f &&
  String.eqb (Py.lower (Py.suffix (Fs.name f))) ext.

(** The body of the loop of [check_blake2_sums] in blake2_sum3.py, for
    one entry of the listing. *)
Definition sum3_step (verbose : bool) (file : Fs.file) : Py.M unit :=
  if Fs.is_file file &&
     String.eqb (Py.lower (Py.suffix (Fs.name file))) ".iso"
  then
    blake2_hash <- blake2_sum3.calculate_blake2b file verbose ;;
    if Py.truthy blake2_hash
    then Py.logging_info
           (Py.DigestLine (Fs.name file)
                          (Py.default EmptyString blake2_hash))
    else Py.ret tt
  else Py.ret tt.

(** Everything but the updates of the progress bar. *)
Definition not_progress (ev : Py.event) : bool :=
  match ev with Py.PbarUpdate _ => false | _ => true end.

(** * Properties *)

(** ** The incremental hash computes BLAKE2 *)

Section Incremental.
Import Blake2b.

(** Feeding the input in two pieces or in one is the same. *)
Lemma blake2b_update_app ctx d1 d2 :
  blake2b_update ctx (d1 ++ d2) = blake2b_update (blake2b_update ctx d1) d2.
Proof. unfold blake2b_update. apply fold_left_app. Qed.

Lemma compressed_bound d : (bb * compressed d <= length d)%nat.
Proof.
  unfold compressed, bb.
  pose proof (Nat.Div0.mul_div_le (length d - 1) 128). lia.
Qed.
Lemma block_app d e i :
  (bb * (i + 1) <= length d)%nat -> block (d ++ e) i = block d i.
Proof.
  intros Hi. unfold block. f_equal.
  rewrite skipn_app, firstn_app, length_skipn.
  replace (bb - (length d - bb * i))%nat with 0%nat by lia.
  rewrite firstn_O, app_nil_r. reflexivity.
Qed.




Lemma absorb_app nn d e k :
  (bb * k <= length d)%nat -> absorb nn (d ++ e) k = absorb nn d k.
Proof.
  intros Hk. unfold absorb.
  assert (Hgen : forall l h,
             (forall i, In i l -> (i < k)%nat) ->
             fold_left
               (fun h i =>
                  let t := Z.of_nat ((i + 1) * bb) in
                  F h (block (d ++ e) i) (lo t) (hi t) false) l h =
             fold_left
               (fun h i =>
                  let t := Z.of_nat ((i + 1) * bb) in
                  F h (block d i) (lo t) (hi t) false) l h).
  { induction l as [|i l IH]; intros h Hl; cbn [fold_left]; [reflexivity|].
    rewrite block_app.
    - apply IH. intros j Hj. apply Hl. now right.
    - specialize (Hl i (or_introl eq_refl)). nia. }
  apply Hgen. intros i Hi. apply in_seq in Hi. lia.
Qed.

Lemma absorb_S nn d k :
  absorb nn d (S k) =
  let t := Z.of_nat ((k + 1) * bb) in
  F (absorb nn d k) (block d k) (lo t) (hi t) false.
Proof.
  unfold absorb. rewrite seq_S, fold_left_app. reflexivity.
Qed.

(** The two-word counter of the implementation follows the offset of
    the definition. *)
Lemma counter_step T n :
  0 <= T -> 0 <= n <= 128 ->
  add64 (lo T) n = lo (T + n) /\
  (if lo (T + n) <? n then add64 (hi T) 1 else hi T) = hi (T + n).
Proof.
  intros HT Hn. unfold add64, lo, hi, wmask, w.
  change (2 ^ 64) with 18446744073709551616.
  rewrite Z.add_mod_idemp_l by lia. split; [reflexivity|].
  pose proof (Z.div_mod T 18446744073709551616 ltac:(lia)) as E1.
  pose proof (Z.mod_pos_bound T 18446744073709551616 ltac:(lia)) as B1.
  pose proof (Z.div_mod (T + n) 18446744073709551616 ltac:(lia)) as E2.
  pose proof (Z.mod_pos_bound (T + n) 18446744073709551616 ltac:(lia)) as B2.
  destruct (Z.ltb_spec ((T + n) mod 18446744073709551616) n) as [Hlt|Hge].
  - rewrite Z.add_mod_idemp_l by lia. f_equal. lia.
  - f_equal. lia.
Qed.


Lemma compressed_snoc d x :
  compressed (d ++ [x]) =
  if (length d - bb * compressed d =? bb)%nat
  then S (compressed d) else compressed d.
Proof.
  unfold compressed, bb. rewrite length_app. cbn [length].
  set (n := length d).
  pose proof (Nat.div_mod_eq (n - 1) 128) as E1.
  pose proof (Nat.mod_upper_bound (n - 1) 128 ltac:(lia)) as B1.
  pose proof (Nat.div_mod_eq (n + 1 - 1) 128) as E2.
  pose proof (Nat.mod_upper_bound (n + 1 - 1) 128 ltac:(lia)) as B2.
  destruct (Nat.eqb_spec (n - 128 * ((n - 1) / 128)) 128) as [E|E]; lia.
Qed.

Lemma pad_full p : length p = bb -> pad p = p.
Proof.
  intros Hp. unfold pad. rewrite Hp, Nat.sub_diag. apply app_nil_r.
Qed.

(** The state of the implementation once [d] has been fed in. *)
Lemma blake2b_update_init nn d :
  blake2b_update (blake2b_init nn) d = fed nn d.
Proof.
  induction d as [|x d IH] using rev_ind; [reflexivity|].
  rewrite blake2b_update_app, IH.
  pose proof (compressed_bound d) as Hb.
  pose proof (compressed_snoc d x) as Hk.
  unfold fed at 2. rewrite Hk.
  unfold blake2b_update, fed. cbn [fold_left].
  unfold update_byte, c. cbn [b h t0 t1 outlen].
  rewrite length_skipn.
  destruct (Nat.eqb_spec (length d - bb * compressed d) bb) as [E|E].
  - (* the buffer is full: compress it, then store the byte *)
    destruct (counter_step (Z.of_nat (bb * compressed d)) (Z.of_nat bb))
      as [C0 C1]; [lia | unfold bb; lia |].
    unfold blake2b_compress, add_counter, c. cbn [b h t0 t1 outlen].
    rewrite length_skipn, E, C0, C1.
    replace (Z.of_nat (bb * compressed d) + Z.of_nat bb)
      with (Z.of_nat (bb * S (compressed d))) by lia.
    rewrite absorb_S. cbv zeta.
    replace ((compressed d + 1) * bb)%nat with (bb * S (compressed d))%nat
      by lia.
    rewrite absorb_app by lia.
    rewrite block_app by lia.
    unfold block.
    rewrite (firstn_all2 (n := bb)) by (rewrite length_skipn; lia).
    rewrite pad_full by (rewrite length_skipn; lia).
    f_equal.
    rewrite skipn_app, (skipn_all2 (n := bb * S (compressed d))) by lia.
    replace (bb * S (compressed d) - length d)%nat with 0%nat by lia.
    reflexivity.
  - rewrite absorb_app by lia. f_equal.
    rewrite skipn_app.
    replace (bb * compressed d - length d)%nat with 0%nat by lia.
    reflexivity.
Qed.

(** The incremental implementation computes the hash function of the
    definition. *)
Lemma blake2b_final_update nn d :
  blake2b_final (blake2b_update (blake2b_init nn) d) = BLAKE2 nn d.
Proof.
  rewrite blake2b_update_init.
  pose proof (compressed_bound d) as Hb.
  destruct (counter_step (Z.of_nat (bb * compressed d))
                         (Z.of_nat (length d - bb * compressed d)))
    as [C0 C1]; [lia | |].
  { unfold compressed, bb.
    pose proof (Nat.div_mod_eq (length d - 1) 128).
    pose proof (Nat.mod_upper_bound (length d - 1) 128 ltac:(lia)). lia. }
  unfold blake2b_final, blake2b_compress, add_counter, c, fed.
  cbn [b h t0 t1 outlen]. rewrite length_skipn, C0, C1.
  replace (Z.of_nat (bb * compressed d) +
           Z.of_nat (length d - bb * compressed d))
    with (Z.of_nat (length d)) by lia.
  unfold BLAKE2, ll.
  assert (Hdd : (dd d - 1)%nat = compressed d).
  { unfold dd, ll, compressed, bb.
    destruct (Nat.eqb_spec (length d) 0) as [E|E]; [rewrite E; reflexivity|].
    replace (length d + 128 - 1)%nat with (length d - 1 + 1 * 128)%nat
      by lia.
    rewrite Nat.div_add by lia. lia. }
  rewrite Hdd. unfold block.
  rewrite (firstn_all2 (n := bb)); [reflexivity|].
  rewrite length_skipn. unfold compressed, bb.
  pose proof (Nat.div_mod_eq (length d - 1) 128).
  pose proof (Nat.mod_upper_bound (length d - 1) 128 ltac:(lia)). lia.
Qed.

(** 300 bytes, fed in pieces of 7, 128 and 165 bytes. *)
Example three_pieces :
  let d := repeat x61 300 in
  blake2b_final
    (blake2b_update
       (blake2b_update (blake2b_update (blake2b_init 64) (firstn 7 d))
                       (firstn 128 (skipn 7 d)))
       (skipn 135 d)) =
  BLAKE2 64 d.
Proof. vm_compute. reflexivity. Qed.

End Incremental.

(** ** The monad of runs and the read loop *)

Import Py Fs.

Lemma chunk_rest size rest :
  (chunk_of size rest ++ rest_after size rest)%list = rest.
Proof.
  unfold chunk_of, rest_after.
  destruct (size =? -1); [apply app_nil_r | apply firstn_skipn].
Qed.

Section Monad.
Context {A B : Type}.

Lemma outcome_bind (m : M A) (k : A -> M B) :
  outcome (bind m k) =
  match outcome m with
  | Return a => outcome (k a)
  | Raise e => Raise e
  end.
Proof.
  destruct m as [tr [a|e]]; cbn; [destruct (k a)|]; reflexivity.
Qed.

Lemma trace_bind (m : M A) (k : A -> M B) :
  trace (bind m k) =
  match outcome m with
  | Return a => (trace m ++ trace (k a))%list
  | Raise e => trace m
  end.
Proof.
  destruct m as [tr [a|e]]; cbn; [destruct (k a)|]; reflexivity.
Qed.
End Monad.

(** The guards of [read]: what it takes, and what it refuses before any
    I/O. *)
Lemma refused_none f size :
  refused f size = None <->
  -1 <= size < 2 ^ 63 /\ wanted size (data f) <= buffer_limit (h_file f).
Proof.
  assert (Hmax : buffer_limit (h_file f) <= bytes_max)
    by (unfold buffer_limit, bytes_max, io.DEFAULT_BUFFER_SIZE; lia).
  unfold refused.
  destruct (Z.ltb_spec size (- 2 ^ 63)); cbn [orb];
    [split; [discriminate | lia]|].
  destruct (Z.leb_spec (2 ^ 63) size); [split; [discriminate | lia]|].
  destruct (Z.ltb_spec size (-1)); [split; [discriminate | lia]|].
  destruct (Z.ltb_spec bytes_max (wanted size (data f)));
    [split; [discriminate | lia]|].
  destruct (Z.ltb_spec (buffer_limit (h_file f)) (wanted size (data f)));
    [split; [discriminate | lia] | split; [lia | reflexivity]].
Qed.

Lemma takes_opened p size :
  takes p size <-> refused (opened p) size = None.
Proof. rewrite refused_none. reflexivity. Qed.

Lemma buffer_limit_default p : io.DEFAULT_BUFFER_SIZE <= buffer_limit p.
Proof. unfold buffer_limit. lia. Qed.

Lemma takes_default p : takes p io.DEFAULT_BUFFER_SIZE.
Proof.
  unfold takes, wanted. pose proof (buffer_limit_default p) as H.
  change (io.DEFAULT_BUFFER_SIZE =? -1) with false. cbv iota.
  unfold io.DEFAULT_BUFFER_SIZE in *. lia.
Qed.

Lemma takes_zero p : takes p 0.
Proof.
  unfold takes, wanted. pose proof (buffer_limit_default p) as H.
  change (0 =? -1) with false. cbv iota.
  unfold io.DEFAULT_BUFFER_SIZE in *. lia.
Qed.

Lemma refused_default f : refused f io.DEFAULT_BUFFER_SIZE = None.
Proof.
  apply refused_none. unfold wanted.
  pose proof (buffer_limit_default (h_file f)) as H.
  change (io.DEFAULT_BUFFER_SIZE =? -1) with false. cbv iota.
  unfold io.DEFAULT_BUFFER_SIZE in *. lia.
Qed.

Lemma refused_zero f : refused f 0 = None.
Proof.
  apply refused_none. unfold wanted.
  pose proof (buffer_limit_default (h_file f)) as H.
  change (0 =? -1) with false. cbv iota.
  unfold io.DEFAULT_BUFFER_SIZE in *. lia.
Qed.

(** Once a read was taken, the later ones are. *)
Lemma refused_advance f size :
  refused f size = None ->
  refused (advance f (rest_after size (data f))) size = None.
Proof.
  rewrite !refused_none. cbn [advance h_file data].
  unfold wanted, rest_after. intros [Hsize Hlimit].
  split; [exact Hsize|].
  destruct (size =? -1); [|exact Hlimit].
  pose proof (buffer_limit_default (h_file f)) as H.
  cbn [length]. unfold io.DEFAULT_BUFFER_SIZE in *. lia.
Qed.

(** What a read returns when neither the size nor the device is at
    fault. *)
Lemma read_ok f size :
  fails_now f = None -> refused f size = None ->
  read f size =
  (Return (chunk_of size (data f)), advance f (rest_after size (data f))).
Proof.
  intros Herr Hsize. unfold read. rewrite Hsize, Herr. reflexivity.
Qed.

Lemma read_refused f size e :
  refused f size = Some e -> read f size = (Raise e, f).
Proof. intros H. unfold read. rewrite H. reflexivity. Qed.

Lemma fails_now_readable f :
  read_error (h_file f) = None -> fails_now f = None.
Proof. unfold fails_now. intros ->. reflexivity. Qed.

Lemma chunk_of_nil size rest :
  0 < size \/ size = -1 -> chunk_of size rest = [] -> rest = [].
Proof.
  unfold chunk_of. intros Hsize.
  destruct (Z.eqb_spec size (-1)); [trivial|].
  destruct rest; [reflexivity|].
  destruct (Z.to_nat size) eqn:E; [lia | discriminate].
Qed.

Lemma read_chunks_outcome after size f n blake2 :
  read_error (h_file f) = None ->
  0 < size \/ size = -1 ->
  refused f size = None ->
  outcome (read_chunks after size f n blake2) =
  Return (hashlib.update blake2 (data f)).
Proof.
  funelim (read_chunks after size f n blake2); intros Herr Hsize Htakes;
    match goal with
    | Hr : read _ _ = _ |- _ =>
        let R := fresh "R" in
        pose proof Hr as R;
        rewrite read_ok in R by (auto using fails_now_readable);
        try discriminate R; injection R as Hc Hf
    end.
  - (* the empty chunk: nothing is left *)
    cbn [outcome snd].
    rewrite (chunk_of_nil size (data f)) by assumption. reflexivity.
  - rewrite outcome_bind. cbn [outcome snd].
    rewrite (H tt)
      by (subst f'; cbn [advance h_file];
          auto using refused_advance).
    subst f'. cbn [advance data]. unfold hashlib.update.
    rewrite <- blake2b_update_app, <- Hc, chunk_rest. reflexivity.
Qed.


(** A chunk size of 0: the first read returns the empty chunk. *)
Lemma read_chunks_zero after f n blake2 :
  fails_now f = None ->
  read_chunks after 0 f n blake2 =
  ([IoRead (path (h_file f)) 0], Return blake2).
Proof.
  funelim (read_chunks after 0 f n blake2); intros Herr;
    match goal with
    | Hr : read _ _ = _ |- _ =>
        let R := fresh "R" in
        pose proof Hr as R;
        rewrite read_ok in R by (assumption || apply refused_zero);
        try discriminate R
    end.
  reflexivity.
Qed.

(** A chunk size that [read] refuses: the first read raises. *)
Lemma read_chunks_refused after size f n blake2 e :
  refused f size = Some e ->
  read_chunks after size f n blake2 =
  ([IoRead (path (h_file f)) size], Raise e).
Proof.
  funelim (read_chunks after size f n blake2); intros Href;
    match goal with
    | Hr : read _ _ = _ |- _ =>
        let R := fresh "R" in
        pose proof Hr as R; rewrite (read_refused _ _ _ Href) in R;
        try discriminate R; injection R as Hc Hf
    end.
  subst. reflexivity.
Qed.

(** A chunk size below -1 that fits a [ssize_t]: the first read raises
    [ValueError]. *)
Lemma read_chunks_invalid after size f n blake2 :
  - 2 ^ 63 <= size < -1 ->
  read_chunks after size f n blake2 =
  ([IoRead (path (h_file f)) size],
   Raise (ValueError "read length must be non-negative or -1")).
Proof.
  intros Hsize. apply read_chunks_refused. unfold refused.
  destruct (Z.ltb_spec size (- 2 ^ 63)); [lia|].
  destruct (Z.leb_spec (2 ^ 63) size); [lia|].
  destruct (Z.ltb_spec size (-1)); [reflexivity | lia].
Qed.

(** With a chunk size that [read] takes, the loop raises nothing but the
    [OSError] of a read. *)
Lemma read_chunks_raises after size f n blake2 e :
  refused f size = None ->
  outcome (read_chunks after size f n blake2) = Raise e ->
  exists s, e = OSError s.
Proof.
  funelim (read_chunks after size f n blake2); cbn [outcome snd];
    intros Htakes;
    match goal with Hr : read _ _ = _ |- _ => pose proof Hr as R end;
    unfold read in R; rewrite Htakes in R.
  - discriminate.
  - rewrite outcome_bind. cbn [outcome snd]. apply (H tt).
    destruct (fails_now f); [discriminate|].
    injection R as _ <-. now apply refused_advance.
  - intros [= <-].
    destruct (fails_now f); [|discriminate].
    injection R as <- _. eauto.
Qed.

(** The events of the loop are reads and the side effects of the
    variant. *)
Lemma read_chunks_quiet (P : event -> bool) after size f n blake2 :
  (forall path size, P (IoRead path size) = false) ->
  (forall i chunk, filter P (after i chunk) = []) ->
  filter P (trace (read_chunks after size f n blake2)) = [].
Proof.
  intros HP Hafter.
  funelim (read_chunks after size f n blake2); cbn [trace fst filter];
    rewrite ?HP; try reflexivity.
  rewrite trace_bind. cbn [outcome snd trace fst].
  rewrite filter_app. cbn [filter]. rewrite HP, Hafter.
  apply (H tt); assumption.
Qed.

(** The read call of index [k] is reached when the ones before it
    returned a non-empty chunk; the loop ends with that call. *)
Lemma read_chunks_fails after size f n blake2 k e :
  read_error (h_file f) = Some (k, e) ->
  0 < size ->
  refused f size = None ->
  (forall i chunk, filter is_read (after i chunk) = []) ->
  (calls f <= k)%nat ->
  (Z.of_nat k - Z.of_nat (calls f) - 1) * size < Z.of_nat (length (data f)) ->
  exists pre,
    read_chunks after size f n blake2 =
    ((pre ++ [IoRead (path (h_file f)) size])%list, Raise (OSError e)) /\
    length (filter is_read pre) = (k - calls f)%nat.
Proof.
  funelim (read_chunks after size f n blake2);
    intros Herr Hsize Htakes Hafter Hcalls Hreach;
    match goal with
    | Hr : read _ _ = _ |- _ =>
        let R := fresh "R" in
        pose proof Hr as R; unfold read, fails_now in R;
        rewrite Htakes, Herr in R;
        destruct (Nat.eqb_spec k (calls f)) as [Ek|Ek];
        try discriminate R; injection R as Hc Hf
    end.
  - (* an empty chunk before the failing call: it is not reached *)
    apply chunk_of_nil in Hc; [|lia]. rewrite Hc in Hreach.
    cbn [length] in Hreach. nia.
  - subst f'. cbn [advance h_file calls data] in H.
    destruct (H tt k e) as (pre & Hrun & Hpre); try assumption.
    + now apply refused_advance in Htakes.
    + lia.
    + unfold rest_after.
      destruct (Z.eqb_spec size (-1)); [lia|].
      rewrite length_skipn. nia.
    + rewrite Hrun. cbn [advance h_file calls] in *.
      exists ((IoRead (path (h_file f)) size :: after (S chunk_count) (x :: tl))
                ++ pre)%list.
      split; [unfold bind; rewrite <- app_assoc; reflexivity|].
      rewrite filter_app. cbn [filter is_read].
      rewrite Hafter, length_app, Hpre. cbn [length]. lia.
  - exists []. subst. rewrite Nat.sub_diag. split; reflexivity.
Qed.

(** ** The shape of a run of [calculate_blake2b] *)

Ltac run_shape :=
  match goal with
  | |- context [read_chunks ?a ?s ?f ?n ?b] =>
      destruct (read_chunks a s f n b) as [tr [blake2|[e|e|e|e|]]]
  end; cbn; rewrite <- ?app_assoc; reflexivity.

Lemma calculate_blake2b_stat_fails p verbose chunk_size e :
  stat p = inl e ->
  blake2b_1.calculate_blake2b p verbose chunk_size =
  ([IoStat (path p)], Raise (OSError e)).
Proof.
  intros Hst. unfold blake2b_1.calculate_blake2b, path_stat.
  rewrite Hst. reflexivity.
Qed.

Lemma calculate_blake2b_open_fails p verbose chunk_size st_size e :
  stat p = inr st_size -> open_error p = Some e ->
  blake2b_1.calculate_blake2b p verbose chunk_size =
  ([IoStat (path p); Log INFO (Processing (name p) st_size);
    IoOpen (path p); Log ERROR (ErrorReading (path p) e)],
   Return None).
Proof.
  intros Hst Hop. unfold blake2b_1.calculate_blake2b, path_stat, with_open.
  rewrite Hst, Hop. reflexivity.
Qed.

Lemma calculate_blake2b_run p verbose chunk_size st_size :
  stat p = inr st_size -> open_error p = None ->
  blake2b_1.calculate_blake2b p verbose chunk_size =
  let loop :=
    read_chunks (blake2b_1.after_chunk verbose)
                (default io.DEFAULT_BUFFER_SIZE chunk_size)
                (opened p) 0 hashlib.blake2b in
  let before :=
    [IoStat (path p); Log INFO (Processing (name p) st_size);
     IoOpen (path p)] in
  match outcome loop with
  | Return blake2 =>
      ((before ++ trace loop ++
        [IoClose (path p); Log INFO (Completed (name p) st_size)])%list,
       Return (Some (hashlib.hexdigest blake2)))
  | Raise (OSError e) =>
      ((before ++ trace loop ++
        [IoClose (path p); Log ERROR (ErrorReading (path p) e)])%list,
       Return None)
  | Raise e => ((before ++ trace loop ++ [IoClose (path p)])%list, Raise e)
  end.
Proof.
  intros Hst Hop. unfold blake2b_1.calculate_blake2b, path_stat, with_open.
  rewrite Hst, Hop. cbv zeta. run_shape.
Qed.

Lemma calculate_blake2b_v1_open_fails p e :
  open_error p = Some e ->
  blake2_sum.calculate_blake2b p =
  ([IoOpen (path p)], Return ("Error: " ++ e)%string).
Proof.
  intros Hop. unfold blake2_sum.calculate_blake2b, with_open.
  rewrite Hop. reflexivity.
Qed.

Lemma calculate_blake2b_v1_run p :
  open_error p = None ->
  blake2_sum.calculate_blake2b p =
  let loop :=
    read_chunks blake2_sum.after_chunk io.DEFAULT_BUFFER_SIZE
                (opened p) 0 hashlib.blake2b in
  match outcome loop with
  | Return blake2 =>
      ((IoOpen (path p) :: trace loop ++ [IoClose (path p)])%list,
       Return (hashlib.hexdigest blake2))
  | Raise (OSError e) =>
      ((IoOpen (path p) :: trace loop ++ [IoClose (path p)])%list,
       Return ("Error: " ++ e)%string)
  | Raise e =>
      ((IoOpen (path p) :: trace loop ++ [IoClose (path p)])%list, Raise e)
  end.
Proof.
  intros Hop. unfold blake2_sum.calculate_blake2b, with_open.
  rewrite Hop. cbv zeta. 
  match goal with
  | |- context [read_chunks ?a ?s ?f ?n ?b] =>
      destruct (read_chunks a s f n b) as [tr [blake2|[e|e|e|e|]]]
  end; cbn; rewrite ?app_nil_r; reflexivity.
Qed.

Lemma calculate_blake2b_v4_zero p verbose st_size :
  stat p = inr st_size -> open_error p = None ->
  blake2_sum4.calculate_blake2b p verbose (Some 0) =
  ([IoStat (path p); Log INFO (Processing (name p) st_size);
    IoOpen (path p); IoClose (path p)],
   Raise (ZeroDivisionError "integer division or modulo by zero")).
Proof.
  intros Hst Hop.
  unfold blake2_sum4.calculate_blake2b, path_stat, with_open.
  rewrite Hst, Hop. reflexivity.
Qed.

Lemma calculate_blake2b_v4_run p verbose chunk_size st_size :
  stat p = inr st_size -> open_error p = None ->
  default io.DEFAULT_BUFFER_SIZE chunk_size <> 0 ->
  blake2_sum4.calculate_blake2b p verbose chunk_size =
  let loop :=
    read_chunks (blake2_sum4.after_chunk verbose)
                (default io.DEFAULT_BUFFER_SIZE chunk_size)
                (opened p) 0 hashlib.blake2b in
  let before :=
    [IoStat (path p); Log INFO (Processing (name p) st_size);
     IoOpen (path p)] in
  match outcome loop with
  | Return blake2 =>
      ((before ++ trace loop ++
        [IoClose (path p); Log INFO (Completed (name p) st_size)])%list,
       Return (Some (hashlib.hexdigest blake2)))
  | Raise (OSError e) =>
      ((before ++ trace loop ++
        [IoClose (path p); Log ERROR (ErrorReading (path p) e)])%list,
       Return None)
  | Raise e => ((before ++ trace loop ++ [IoClose (path p)])%list, Raise e)
  end.
Proof.
  intros Hst Hop Hcs.
  unfold blake2_sum4.calculate_blake2b, path_stat, with_open,
    blake2_sum4.tqdm_total.
  rewrite Hst, Hop. cbv zeta.
  destruct (Z.eqb_spec (default io.DEFAULT_BUFFER_SIZE chunk_size) 0);
    [contradiction|].
  run_shape.
Qed.

(** A readable file hashed with a usable chunk size. *)
Lemma hexdigest_update d :
  hashlib.hexdigest (hashlib.update hashlib.blake2b d) =
  hex (Blake2b.blake2b_512 d).
Proof.
  unfold hashlib.hexdigest, hashlib.update, hashlib.blake2b,
    Blake2b.blake2b_512.
  rewrite blake2b_final_update. reflexivity.
Qed.

Lemma default_chunk_size_usable p chunk_size :
  chunk_size = None \/
  (exists n, chunk_size = Some n /\ 0 < n /\ takes p n) ->
  0 < default io.DEFAULT_BUFFER_SIZE chunk_size /\
  takes p (default io.DEFAULT_BUFFER_SIZE chunk_size).
Proof.
  intros [-> | (n & -> & Hn & Ht)]; cbn [default].
  - split; [reflexivity | apply takes_default].
  - split; assumption.
Qed.

Lemma calculate_blake2b_readable p verbose chunk_size :
  readable p ->
  0 < default io.DEFAULT_BUFFER_SIZE chunk_size \/
  default io.DEFAULT_BUFFER_SIZE chunk_size = -1 ->
  takes p (default io.DEFAULT_BUFFER_SIZE chunk_size) ->
  outcome (blake2b_1.calculate_blake2b p verbose chunk_size) =
  Return (Some (hex (Blake2b.blake2b_512 (content p)))).
Proof.
  intros ([st_size Hst] & Hop & Hrd) Hcs Ht. apply takes_opened in Ht.
  rewrite (calculate_blake2b_run _ _ _ _ Hst Hop). cbv zeta.
  rewrite read_chunks_outcome by assumption.
  cbn [outcome snd opened data]. rewrite hexdigest_update. reflexivity.
Qed.

Lemma calculate_blake2b_v4_readable p verbose chunk_size :
  readable p ->
  0 < default io.DEFAULT_BUFFER_SIZE chunk_size \/
  default io.DEFAULT_BUFFER_SIZE chunk_size = -1 ->
  takes p (default io.DEFAULT_BUFFER_SIZE chunk_size) ->
  outcome (blake2_sum4.calculate_blake2b p verbose chunk_size) =
  Return (Some (hex (Blake2b.blake2b_512 (content p)))).
Proof.
  intros ([st_size Hst] & Hop & Hrd) Hcs Ht. apply takes_opened in Ht.
  rewrite (calculate_blake2b_v4_run _ _ _ _ Hst Hop) by lia. cbv zeta.
  rewrite read_chunks_outcome by assumption.
  cbn [outcome snd opened data]. rewrite hexdigest_update. reflexivity.
Qed.

Lemma calculate_blake2b_v1_readable p :
  open_error p = None -> read_error p = None ->
  outcome (blake2_sum.calculate_blake2b p) =
  Return (hex (Blake2b.blake2b_512 (content p))).
Proof.
  intros Hop Hrd.
  rewrite (calculate_blake2b_v1_run _ Hop). cbv zeta.
  rewrite read_chunks_outcome
    by (assumption || (left; reflexivity) || apply refused_default).
  cbn [outcome snd opened data]. rewrite hexdigest_update. reflexivity.
Qed.

(** ** The digest of a readable file *)

(** Known digests, by evaluation of the definition. *)
Lemma blake2b_512_empty : hex (Blake2b.blake2b_512 []) = Sample.empty_digest.
Proof. vm_compute. reflexivity. Qed.

Lemma blake2b_512_abc :
  hex (Blake2b.blake2b_512 (bytes_of_string "abc")) = Sample.abc_digest.
Proof. vm_compute. reflexivity. Qed.

Lemma blake2b_512_hello :
  hex (Blake2b.blake2b_512 (bytes_of_string "hello")) = Sample.hello_digest.
Proof. vm_compute. reflexivity. Qed.

Lemma regular_readable name text : readable (Sample.regular name text).
Proof. split; [eexists; reflexivity | split; reflexivity]. Qed.

(** A chunk size that a sample file takes, by evaluation. *)
Ltac sample_takes := vm_compute; repeat split; discriminate.

(** C1. For every readable file, whatever its content, [calculate_blake2b]
    (in blake2b_1.py with the default chunk size or a positive one that
    [read] takes, and in blake2_sum.py) returns the hexadecimal encoding
    of the BLAKE2b-512 digest of the content as RFC 7693 defines it; for
    an empty file this is the fixed digest of the empty input, and for the
    content "abc" the test vector of RFC 7693, appendix A. *)
Theorem calculate_blake2b_is_blake2b_512 p verbose chunk_size :
  readable p ->
  chunk_size = None \/
  (exists n, chunk_size = Some n /\ 0 < n /\ takes p n) ->
  let digest := hex (Blake2b.blake2b_512 (content p)) in
  outcome (blake2b_1.calculate_blake2b p verbose chunk_size) =
    Return (Some digest) /\
  outcome (blake2_sum.calculate_blake2b p) = Return digest /\
  (content p = [] -> digest = Sample.empty_digest) /\
  (content p = bytes_of_string "abc" -> digest = Sample.abc_digest).
Proof.
  intros Hp Hcs digest. subst digest.
  apply (default_chunk_size_usable p) in Hcs. destruct Hcs as [Hpos Ht].
  repeat split.
  - apply calculate_blake2b_readable; [assumption | now left | assumption].
  - destruct Hp as (_ & Hop & Hrd). now apply calculate_blake2b_v1_readable.
  - intros ->. apply blake2b_512_empty.
  - intros ->. apply blake2b_512_abc.
Qed.

(** A file holding "abc", hashed with the default chunk size. *)
Lemma calculate_blake2b_is_blake2b_512_witness :
  readable (Sample.regular "a.iso" "abc") /\
  outcome (blake2b_1.calculate_blake2b (Sample.regular "a.iso" "abc")
                                       false None) =
    Return (Some Sample.abc_digest) /\
  outcome (blake2_sum.calculate_blake2b (Sample.regular "a.iso" "abc")) =
    Return Sample.abc_digest.
Proof.
  pose proof (calculate_blake2b_is_blake2b_512
                (Sample.regular "a.iso" "abc") false None
                (regular_readable _ _) (or_introl eq_refl)) as H.
  cbv zeta in H. destruct H as (H1 & H2 & _ & H4).
  rewrite (H4 eq_refl) in H1, H2.
  split; [apply regular_readable | split; assumption].
Defined.

(** C2, as the specification states it, fails: a positive chunk size
    that does not fit a C [ssize_t] makes the first read raise
    [OverflowError], and one beyond what the process can allocate makes it
    raise [MemoryError], where the chunk size 1 gives the digest. *)
Lemma huge_chunk_size_gives_no_digest :
  let p := Sample.regular "a.iso" "hello" in
  readable p /\ 0 < 1 /\ 0 < 2 ^ 63 /\ memory p < 2 ^ 40 /\
  outcome (blake2b_1.calculate_blake2b p false (Some 1)) =
    Return (Some Sample.hello_digest) /\
  blake2b_1.calculate_blake2b p false (Some (2 ^ 63)) =
    ([IoStat "isos/a.iso"; Log INFO (Processing "a.iso" 5);
      IoOpen "isos/a.iso"; IoRead "isos/a.iso" (2 ^ 63);
      IoClose "isos/a.iso"],
     Raise (OverflowError "cannot fit 'int' into an index-sized integer")) /\
  outcome (blake2_sum4.calculate_blake2b p false (Some (2 ^ 63))) =
    Raise (OverflowError "cannot fit 'int' into an index-sized integer") /\
  outcome (blake2b_1.calculate_blake2b p false (Some (2 ^ 40))) =
    Raise MemoryError.
Proof.
  intros p. split; [apply regular_readable|].
  split; [reflexivity|]. split; [reflexivity|]. split; [reflexivity|].
  split.
  - rewrite calculate_blake2b_readable;
      [| apply regular_readable | left; reflexivity
       | sample_takes].
    unfold p. cbn [Sample.regular content].
    rewrite blake2b_512_hello. reflexivity.
  - split; [|split].
    + rewrite (calculate_blake2b_run p false (Some (2 ^ 63)) 5 eq_refl eq_refl).
      cbv zeta. cbn [default].
      erewrite read_chunks_refused by reflexivity. reflexivity.
    + rewrite (calculate_blake2b_v4_run p false (Some (2 ^ 63)) 5
                 eq_refl eq_refl) by discriminate.
      cbv zeta. cbn [default].
      erewrite read_chunks_refused by reflexivity. reflexivity.
    + rewrite (calculate_blake2b_run p false (Some (2 ^ 40)) 5 eq_refl eq_refl).
      cbv zeta. cbn [default].
      erewrite read_chunks_refused by reflexivity. reflexivity.
Qed.

(** C2, amended. For every readable file and any two positive chunk sizes
    that [read] takes (1 byte, the default buffer size, a size beyond the
    file size, ..., as long as it fits a C [ssize_t] and a buffer of that
    size can be allocated), [calculate_blake2b] returns the same digest,
    in blake2b_1.py and in blake2_sum4.py. *)
Theorem chunk_size_independence p verbose1 verbose2 n1 n2 :
  readable p -> 0 < n1 -> 0 < n2 -> takes p n1 -> takes p n2 ->
  exists digest,
    outcome (blake2b_1.calculate_blake2b p verbose1 (Some n1)) =
      Return (Some digest) /\
    outcome (blake2b_1.calculate_blake2b p verbose2 (Some n2)) =
      Return (Some digest) /\
    outcome (blake2_sum4.calculate_blake2b p verbose1 (Some n1)) =
      Return (Some digest) /\
    outcome (blake2_sum4.calculate_blake2b p verbose2 (Some n2)) =
      Return (Some digest).
Proof.
  intros Hp H1 H2 T1 T2. exists (hex (Blake2b.blake2b_512 (content p))).
  repeat split;
    (apply calculate_blake2b_readable || apply calculate_blake2b_v4_readable);
    try assumption; left; assumption.
Qed.

(** "hello" read byte by byte and with the default buffer size. *)
Lemma chunk_size_independence_witness :
  readable (Sample.regular "a.iso" "hello") /\ 0 < 1 /\
  0 < io.DEFAULT_BUFFER_SIZE /\
  takes (Sample.regular "a.iso" "hello") 1 /\
  takes (Sample.regular "a.iso" "hello") io.DEFAULT_BUFFER_SIZE /\
  exists digest,
    outcome (blake2b_1.calculate_blake2b (Sample.regular "a.iso" "hello")
               false (Some 1)) = Return (Some digest) /\
    outcome (blake2b_1.calculate_blake2b (Sample.regular "a.iso" "hello")
               true (Some io.DEFAULT_BUFFER_SIZE)) = Return (Some digest).
Proof.
  assert (H1 : 0 < 1) by lia.
  assert (H2 : 0 < io.DEFAULT_BUFFER_SIZE) by reflexivity.
  assert (T1 : takes (Sample.regular "a.iso" "hello") 1)
    by sample_takes.
  assert (T2 : takes (Sample.regular "a.iso" "hello") io.DEFAULT_BUFFER_SIZE)
    by apply takes_default.
  destruct (chunk_size_independence (Sample.regular "a.iso" "hello")
              false true 1 io.DEFAULT_BUFFER_SIZE
              (regular_readable _ _) H1 H2 T1 T2) as (digest & Ha & Hb & _).
  split; [apply regular_readable|]. split; [exact H1|]. split; [exact H2|].
  split; [exact T1|]. split; [exact T2|].
  exists digest. split; assumption.
Defined.

(** ** Chunk sizes that are not positive *)

Lemma fails_now_opened p : read_error p = None -> fails_now (opened p) = None.
Proof. intros H. apply fails_now_readable. exact H. Qed.

Lemma hexdigest_blake2b :
  hashlib.hexdigest hashlib.blake2b = hex (Blake2b.blake2b_512 []).
Proof. rewrite <- hexdigest_update. reflexivity. Qed.

(** blake2b_1.py with a chunk size of 0: the first read returns the empty
    chunk, and the digest is the one of the empty input. *)
Lemma calculate_blake2b_zero p verbose :
  readable p ->
  outcome (blake2b_1.calculate_blake2b p verbose (Some 0)) =
  Return (Some (hex (Blake2b.blake2b_512 []))).
Proof.
  intros ([st_size Hst] & Hop & Hrd).
  rewrite (calculate_blake2b_run _ _ _ _ Hst Hop). cbv zeta.
  cbn [default]. rewrite read_chunks_zero by now apply fails_now_opened.
  cbn [outcome snd]. rewrite hexdigest_blake2b. reflexivity.
Qed.

(** A chunk size below -1 is refused by the first read. *)
Lemma calculate_blake2b_invalid p verbose n :
  readable p -> - 2 ^ 63 <= n < -1 ->
  outcome (blake2b_1.calculate_blake2b p verbose (Some n)) =
  Raise (ValueError "read length must be non-negative or -1").
Proof.
  intros ([st_size Hst] & Hop & Hrd) Hn.
  rewrite (calculate_blake2b_run _ _ _ _ Hst Hop). cbv zeta.
  cbn [default]. rewrite read_chunks_invalid by assumption. reflexivity.
Qed.

(** C3, as the specification states it, fails: with the chunk size 0,
    which is not a positive integer, the digest of a readable file holding
    "hello" is the digest of the empty input, not the digest obtained with
    the default chunk size. *)
Lemma invalid_chunk_size_has_no_fallback :
  let p := Sample.regular "a.iso" "hello" in
  readable p /\
  outcome (blake2b_1.calculate_blake2b p false (Some 0)) =
    Return (Some Sample.empty_digest) /\
  outcome (blake2b_1.calculate_blake2b p false None) =
    Return (Some Sample.hello_digest) /\
  outcome (blake2b_1.calculate_blake2b p false (Some 0)) <>
  outcome (blake2b_1.calculate_blake2b p false None).
Proof.
  intros p.
  assert (H0 : outcome (blake2b_1.calculate_blake2b p false (Some 0)) =
               Return (Some Sample.empty_digest)).
  { rewrite calculate_blake2b_zero by apply regular_readable.
    rewrite blake2b_512_empty. reflexivity. }
  assert (Hd : outcome (blake2b_1.calculate_blake2b p false None) =
               Return (Some Sample.hello_digest)).
  { rewrite calculate_blake2b_readable;
      [| apply regular_readable | left; reflexivity | apply takes_default].
    unfold p. cbn [Sample.regular content].
    rewrite blake2b_512_hello. reflexivity. }
  split; [apply regular_readable|]. split; [exact H0|]. split; [exact Hd|].
  rewrite H0, Hd. intros E. vm_compute in E. discriminate E.
Qed.

(** C3, amended. A chunk size that is left unspecified is the default
    buffer size [io.DEFAULT_BUFFER_SIZE], in [calculate_blake2b], in
    [check_blake2_sums] and on the command line, so that the run is the
    one with the default chunk size, and for every readable file the
    digest returned is the digest of its content. *)
Theorem unspecified_chunk_size_is_default p verbose :
  blake2b_1.calculate_blake2b p verbose None =
    blake2b_1.calculate_blake2b p verbose (Some io.DEFAULT_BUFFER_SIZE) /\
  blake2_sum4.calculate_blake2b p verbose None =
    blake2_sum4.calculate_blake2b p verbose (Some io.DEFAULT_BUFFER_SIZE) /\
  (forall sched fs directory ext,
     blake2b_1.check_blake2_sums sched fs directory verbose ext None =
     blake2b_1.check_blake2_sums sched fs directory verbose ext
       (Some io.DEFAULT_BUFFER_SIZE)) /\
  (forall sched fs directory ext,
     blake2b_1.main sched fs directory verbose ext None =
     blake2b_1.main sched fs directory verbose ext
       (Some io.DEFAULT_BUFFER_SIZE)) /\
  (readable p ->
     outcome (blake2b_1.calculate_blake2b p verbose None) =
       Return (Some (hex (Blake2b.blake2b_512 (content p)))) /\
     outcome (blake2_sum4.calculate_blake2b p verbose None) =
       Return (Some (hex (Blake2b.blake2b_512 (content p))))).
Proof.
  repeat split; try reflexivity.
  - apply calculate_blake2b_readable;
      [assumption | left; reflexivity | apply takes_default].
  - apply calculate_blake2b_v4_readable;
      [assumption | left; reflexivity | apply takes_default].
Qed.

(** "hello" with the chunk size left out. *)
Lemma unspecified_chunk_size_is_default_witness :
  let p := Sample.regular "a.iso" "hello" in
  readable p /\
  outcome (blake2b_1.calculate_blake2b p false None) =
    Return (Some Sample.hello_digest) /\
  outcome (blake2b_1.calculate_blake2b p false (Some io.DEFAULT_BUFFER_SIZE)) =
    Return (Some Sample.hello_digest).
Proof.
  intros p.
  destruct (unspecified_chunk_size_is_default p false)
    as (Hsame & _ & _ & _ & H).
  destruct (H (regular_readable _ _)) as (Hd & _).
  rewrite <- Hsame, Hd. unfold p. cbn [Sample.regular content].
  rewrite blake2b_512_hello.
  split; [apply regular_readable|]. split; reflexivity.
Defined.

(** C10 on blake2_sum4.py: with a chunk size of 0 the [total] of the
    progress bar, [(file_size // chunk_size) + 1], divides by zero before
    the first read, and the exception is not an [OSError]; blake2b_1.py,
    which has no such division, returns the digest of the empty input. *)
Theorem chunk_size_zero_divides_by_zero :
  let p := Sample.regular "a.iso" "hello" in
  blake2_sum4.calculate_blake2b p false (Some 0) =
    ([IoStat "isos/a.iso"; Log INFO (Processing "a.iso" 5);
      IoOpen "isos/a.iso"; IoClose "isos/a.iso"],
     Raise (ZeroDivisionError "integer division or modulo by zero")) /\
  outcome (blake2b_1.calculate_blake2b p false (Some 0)) =
    Return (Some Sample.empty_digest).
Proof.
  split.
  - apply calculate_blake2b_v4_zero; reflexivity.
  - rewrite calculate_blake2b_zero by apply regular_readable.
    rewrite blake2b_512_empty. reflexivity.
Qed.

(** ** I/O failures while hashing one file *)

Lemma hex_digit_lower n : hex_digit n <> "E"%char.
Proof.
  destruct n as [|q]; [discriminate|].
  do 4 (destruct q as [q|q|]; try discriminate).
Qed.

(** The string that blake2_sum.py returns on failure is not a digest. *)
Lemma error_string_is_no_digest e bs : ("Error: " ++ e)%string <> hex bs.
Proof.
  destruct bs as [|x bs]; [discriminate|].
  cbn [hex append]. intros [= H _].
  symmetry in H. revert H. apply hex_digit_lower.
Qed.

Lemma after_chunk_quiet (P : event -> bool) verbose :
  (forall n, P (PbarUpdate n) = false) ->
  forall i chunk, filter P (blake2b_1.after_chunk verbose i chunk) = [].
Proof.
  intros HP i chunk. unfold blake2b_1.after_chunk.
  destruct verbose; cbn [filter]; rewrite ?HP; reflexivity.
Qed.

Lemma filter_app_nil {A} (P : A -> bool) l1 l2 :
  filter P (l1 ++ l2) = [] -> filter P l1 = [].
Proof.
  rewrite filter_app. intros H. now apply app_eq_nil in H.
Qed.

(** blake2b_1.py: the read call of index [k] fails. *)
Lemma calculate_blake2b_read_fails p verbose chunk_size st_size k e :
  stat p = inr st_size -> open_error p = None ->
  read_error p = Some (k, e) ->
  let size := default io.DEFAULT_BUFFER_SIZE chunk_size in
  0 < size -> takes p size ->
  (Z.of_nat k - 1) * size < Z.of_nat (length (content p)) ->
  exists reads,
    blake2b_1.calculate_blake2b p verbose chunk_size =
    (([IoStat (path p); Log INFO (Processing (name p) st_size);
       IoOpen (path p)] ++ reads ++
      [IoRead (path p) size; IoClose (path p);
       Log ERROR (ErrorReading (path p) e)])%list,
     Return None) /\
    length (filter is_read reads) = k /\
    filter is_report reads = [].
Proof.
  intros Hst Hop Hrd size Hsize Htakes Hreach.
  apply takes_opened in Htakes.
  destruct (read_chunks_fails (blake2b_1.after_chunk verbose) size
              (opened p) 0 hashlib.blake2b k e)
    as (reads & Hrun & Hreads); try assumption.
  - now apply after_chunk_quiet.
  - cbn [opened calls]. lia.
  - cbn [opened calls data]. lia.
  - exists reads.
    pose proof (read_chunks_quiet is_report (blake2b_1.after_chunk verbose)
                  size (opened p) 0 hashlib.blake2b
                  (fun _ _ => eq_refl)
                  (after_chunk_quiet is_report verbose (fun _ => eq_refl)))
      as Hquiet.
    rewrite (calculate_blake2b_run _ _ _ _ Hst Hop). cbv zeta.
    fold size. rewrite Hrun in *. cbn [outcome snd trace fst] in *.
    split; [|split].
    + rewrite <- !app_assoc. reflexivity.
    + rewrite Hreads. cbn [opened calls]. lia.
    + now apply filter_app_nil in Hquiet.
Qed.

Lemma calculate_blake2b_v1_read_fails p k e :
  open_error p = None -> read_error p = Some (k, e) ->
  (Z.of_nat k - 1) * io.DEFAULT_BUFFER_SIZE < Z.of_nat (length (content p)) ->
  outcome (blake2_sum.calculate_blake2b p) = Return ("Error: " ++ e)%string.
Proof.
  intros Hop Hrd Hreach.
  destruct (read_chunks_fails blake2_sum.after_chunk io.DEFAULT_BUFFER_SIZE
              (opened p) 0 hashlib.blake2b k e)
    as (reads & Hrun & _); try assumption; try reflexivity.
  - apply refused_default.
  - cbn [opened calls]. lia.
  - cbn [opened calls data]. lia.
  - rewrite (calculate_blake2b_v1_run _ Hop). cbv zeta.
    rewrite Hrun. reflexivity.
Qed.

(** C4, as the specification states it, fails on blake2_sum.py: what it
    returns for a failing read is the text "Error: " followed by
    [str(e)], and the [OSError] of a read carries no file name, so the
    description names the cause but neither the path nor the name of the
    file. *)
Lemma read_error_text_does_not_name_the_path :
  let p := Sample.unreadable (Sample.regular "b.iso" "hello") in
  blake2_sum.calculate_blake2b p =
    ([IoOpen "isos/b.iso"; IoRead "isos/b.iso" 8192; IoClose "isos/b.iso"],
     Return "Error: [Errno 5] Input/output error"%string) /\
  contains (path p) "Error: [Errno 5] Input/output error" = false /\
  contains (name p) "Error: [Errno 5] Input/output error" = false.
Proof. vm_compute. repeat split. Qed.

(** C4, amended. For every file on which opening or reading fails with an
    [OSError], once its [stat] has succeeded and with the default chunk
    size or a positive one that [read] takes, [calculate_blake2b] of
    blake2b_1.py stops at the failing call (no further open or read is
    attempted: the failing read is the last one), returns no digest
    ([None]) and logs one error naming the path and the cause; no
    exception leaves the function. blake2_sum.py returns the text
    "Error: <cause>" instead, which is not a digest and names the path
    only where the text of the cause does. *)
Theorem io_failure_is_contained p verbose chunk_size st_size e :
  stat p = inr st_size ->
  chunk_size = None \/
  (exists n, chunk_size = Some n /\ 0 < n /\ takes p n) ->
  let size := default io.DEFAULT_BUFFER_SIZE chunk_size in
  let run := blake2b_1.calculate_blake2b p verbose chunk_size in
  (open_error p = Some e ->
   run = ([IoStat (path p); Log INFO (Processing (name p) st_size);
           IoOpen (path p); Log ERROR (ErrorReading (path p) e)],
          Return None) /\
   blake2_sum.calculate_blake2b p =
     ([IoOpen (path p)], Return ("Error: " ++ e)%string)) /\
  (forall k,
     open_error p = None -> read_error p = Some (k, e) ->
     (Z.of_nat k - 1) * size < Z.of_nat (length (content p)) ->
     exists reads,
       run = (([IoStat (path p); Log INFO (Processing (name p) st_size);
                IoOpen (path p)] ++ reads ++
               [IoRead (path p) size; IoClose (path p);
                Log ERROR (ErrorReading (path p) e)])%list,
              Return None) /\
       length (filter is_read reads) = k /\
       filter is_report reads = []) /\
  (forall k,
     open_error p = None -> read_error p = Some (k, e) ->
     (Z.of_nat k - 1) * io.DEFAULT_BUFFER_SIZE
       < Z.of_nat (length (content p)) ->
     outcome (blake2_sum.calculate_blake2b p) =
       Return ("Error: " ++ e)%string) /\
  (forall bs, ("Error: " ++ e)%string <> hex bs).
Proof.
  intros Hst Hcs size run.
  apply (default_chunk_size_usable p) in Hcs. destruct Hcs as [Hpos Ht].
  repeat split.
  - now apply calculate_blake2b_open_fails.
  - now apply calculate_blake2b_v1_open_fails.
  - intros k Hop Hrd Hreach.
    apply calculate_blake2b_read_fails; assumption.
  - intros k. apply calculate_blake2b_v1_read_fails.
  - apply error_string_is_no_digest.
Qed.

(** "hello" read two bytes at a time, with a device error at the second
    read: one read succeeds, the next one fails and is the last. *)
Lemma io_failure_is_contained_witness :
  let p := Sample.faulty 1 (Sample.regular "a.iso" "hello") in
  stat p = inr 5 /\ 0 < 2 /\ takes p 2 /\
  exists reads,
    blake2b_1.calculate_blake2b p false (Some 2) =
    (([IoStat "isos/a.iso"; Log INFO (Processing "a.iso" 5);
       IoOpen "isos/a.iso"] ++ reads ++
      [IoRead "isos/a.iso" 2; IoClose "isos/a.iso";
       Log ERROR (ErrorReading "isos/a.iso" "Input/output error")])%list,
     Return None) /\
    length (filter is_read reads) = 1%nat.
Proof.
  intros p.
  assert (Ht : takes p 2) by sample_takes.
  destruct (io_failure_is_contained p false (Some 2) 5 "Input/output error"
              eq_refl
              (or_intror (ex_intro _ 2 (conj eq_refl (conj eq_refl Ht)))))
    as (_ & Hread & _).
  destruct (Hread 1%nat eq_refl eq_refl) as (reads & Hrun & Hn & _).
  - vm_compute. reflexivity.
  - split; [reflexivity|]. split; [reflexivity|]. split; [exact Ht|].
    exists reads. split; assumption.
Defined.

(** ** One worker: [process_file] *)

Lemma outlen_update ctx d :
  Blake2b.outlen (Blake2b.blake2b_update ctx d) = Blake2b.outlen ctx.
Proof.
  unfold Blake2b.blake2b_update. revert ctx.
  induction d as [|x d IH]; intros ctx; cbn [fold_left]; [reflexivity|].
  rewrite IH. unfold Blake2b.update_byte.
  destruct (Blake2b.c ctx =? Blake2b.bb)%nat; reflexivity.
Qed.

Lemma read_chunks_outlen after size f n blake2 blake2' :
  outcome (read_chunks after size f n blake2) = Return blake2' ->
  Blake2b.outlen blake2' = Blake2b.outlen blake2.
Proof.
  funelim (read_chunks after size f n blake2); cbn [outcome snd].
  - intros [= <-]. reflexivity.
  - rewrite outcome_bind. cbn [outcome snd]. intros Hrun.
    rewrite (H tt _ Hrun). unfold hashlib.update. apply outlen_update.
  - discriminate.
Qed.

(** A digest of 64 bytes is a non-empty string, hence true in a test. *)
Lemma hexdigest_truthy blake2 :
  Blake2b.outlen blake2 = 64%nat ->
  truthy (Some (hashlib.hexdigest blake2)) = true.
Proof.
  intros H. unfold hashlib.hexdigest, Blake2b.blake2b_final.
  cbn [Blake2b.outlen Blake2b.blake2b_compress Blake2b.add_counter].
  rewrite H. reflexivity.
Qed.

Lemma process_file_run p verbose chunk_size :
  blake2b_1.process_file p verbose chunk_size =
  let run := blake2b_1.calculate_blake2b p verbose (Some chunk_size) in
  match outcome run with
  | Return blake2_hash =>
      ((trace run ++
        if truthy blake2_hash
        then [Log INFO (DigestLine (name p) (default EmptyString blake2_hash))]
        else [])%list,
       Return blake2_hash)
  | Raise e => (trace run, Raise e)
  end.
Proof.
  unfold blake2b_1.process_file. cbv zeta.
  destruct (blake2b_1.calculate_blake2b p verbose (Some chunk_size))
    as [tr [r|e]]; [|reflexivity].
  destruct r as [[|ch r]|]; cbn; rewrite ?app_nil_r; reflexivity.
Qed.

(** A worker whose file can be examined, with a chunk size that [read]
    takes, returns; it emits exactly one report line, the digest line
    when it returns a digest and the error line otherwise. *)
Lemma process_file_reports p verbose chunk_size :
  (exists st_size, stat p = inr st_size) -> takes p chunk_size ->
  exists r,
    outcome (blake2b_1.process_file p verbose chunk_size) = Return r /\
    (truthy r = true <-> r <> None) /\
    exists before line,
      trace (blake2b_1.process_file p verbose chunk_size) =
        (before ++ [line])%list /\
      filter is_report before = [] /\
      filter is_summary (before ++ [line]) = [] /\
      match r with
      | Some digest => line = Log INFO (DigestLine (name p) digest)
      | None => exists e, line = Log ERROR (ErrorReading (path p) e)
      end.
Proof.
  intros [st_size Hst] Hcs. apply takes_opened in Hcs.
  rewrite process_file_run. cbv zeta.
  destruct (open_error p) as [e|] eqn:Hop.
  - rewrite (calculate_blake2b_open_fails _ _ _ _ _ Hst Hop).
    cbn [outcome snd trace fst truthy]. exists None.
    split; [reflexivity|]. split; [split; [discriminate | congruence]|].
    exists [IoStat (path p); Log INFO (Processing (name p) st_size);
            IoOpen (path p)], (Log ERROR (ErrorReading (path p) e)).
    split; [rewrite app_nil_r; reflexivity|].
    cbn. split; [reflexivity|]. split; [reflexivity|]. eauto.
  - rewrite (calculate_blake2b_run _ _ _ _ Hst Hop). cbv zeta.
    cbn [default].
    set (loop := read_chunks (blake2b_1.after_chunk verbose) chunk_size
                             (opened p) 0 hashlib.blake2b).
    pose proof (read_chunks_quiet is_report (blake2b_1.after_chunk verbose)
                  chunk_size (opened p) 0 hashlib.blake2b
                  (fun _ _ => eq_refl)
                  (after_chunk_quiet is_report verbose (fun _ => eq_refl)))
      as Hquiet.
    pose proof (read_chunks_quiet is_summary (blake2b_1.after_chunk verbose)
                  chunk_size (opened p) 0 hashlib.blake2b
                  (fun _ _ => eq_refl)
                  (after_chunk_quiet is_summary verbose (fun _ => eq_refl)))
      as Hquiet'.
    fold loop in Hquiet, Hquiet'.
    destruct (outcome loop) as [blake2|err] eqn:Hloop.
    + (* the digest line *)
      pose proof (read_chunks_outlen _ _ _ _ _ _ Hloop) as Hlen.
      cbn [outcome snd trace fst].
      rewrite (hexdigest_truthy _ Hlen). cbn [default].
      exists (Some (hashlib.hexdigest blake2)).
      split; [reflexivity|].
      split; [split; [discriminate | intros _; apply (hexdigest_truthy _ Hlen)]|].
      eexists _, _. split; [reflexivity|].
      rewrite !filter_app, Hquiet, Hquiet'. cbn.
      split; [reflexivity|]. split; reflexivity.
    + destruct (read_chunks_raises _ _ _ _ _ _ Hcs Hloop) as [s ->].
      (* the error line *)
      cbn [outcome snd trace fst truthy]. exists None.
      split; [reflexivity|]. split; [split; [discriminate | congruence]|].
      exists ([IoStat (path p); Log INFO (Processing (name p) st_size);
               IoOpen (path p)] ++ trace loop ++ [IoClose (path p)])%list,
             (Log ERROR (ErrorReading (path p) s)).
      split; [rewrite app_nil_r, <- !app_assoc; reflexivity|].
      rewrite !filter_app, Hquiet, Hquiet'. cbn.
      split; [reflexivity|]. split; [reflexivity|]. eauto.
Qed.

(** ** The scan: [check_blake2_sums] *)

Lemma count_results_trace completed acc :
  trace (blake2b_1.count_results completed acc) = [].
Proof.
  revert acc. induction completed as [|fut rest IH]; intros acc;
    [reflexivity|].
  cbn [blake2b_1.count_results]. rewrite trace_bind.
  destruct fut as [tr [r|e]]; cbn; [apply IH | reflexivity].
Qed.

(** [succeeded <= total], at every step of the counting loop. *)
Lemma count_results_bound completed acc n :
  outcome (blake2b_1.count_results completed acc) = Return n ->
  (acc <= n <= acc + length completed)%nat.
Proof.
  revert acc. induction completed as [|fut rest IH]; intros acc;
    cbn [blake2b_1.count_results].
  - intros [= <-]. cbn [length]. lia.
  - rewrite outcome_bind.
    destruct fut as [tr [r|e]]; cbn; [|discriminate].
    intros Hrest. apply IH in Hrest.
    destruct (truthy r); lia.
Qed.

Lemma count_results_returns completed acc :
  Forall (fun fut : future (option string) =>
            exists r, outcome fut = Return r) completed ->
  exists n, outcome (blake2b_1.count_results completed acc) = Return n.
Proof.
  intros Hall. revert acc.
  induction Hall as [|fut rest [r Hr] _ IH]; intros acc;
    cbn [blake2b_1.count_results]; [eexists; reflexivity|].
  rewrite outcome_bind.
  destruct fut as [tr [r'|e]]; cbn in *; [apply IH | discriminate].
Qed.

Lemma bind_ret {A B} (a : A) (k : A -> M B) : bind (ret a) k = k a.
Proof. unfold bind, ret. destruct (k a). reflexivity. Qed.

Lemma check_blake2_sums_run sched fs directory verbose ext chunk_size
      entries :
  fs directory = Listing entries ->
  let files := blake2b_1.matching_files entries (default ".iso"%string ext) in
  files <> [] ->
  let completed :=
    as_completed sched
      (map (fun file =>
              submit (blake2b_1.process_file file verbose
                        (default io.DEFAULT_BUFFER_SIZE chunk_size)))
           files) in
  let found :=
    Log INFO (Found (length files) (default ".iso"%string ext) directory) in
  blake2b_1.check_blake2_sums sched fs directory verbose ext chunk_size =
  match outcome (blake2b_1.count_results completed 0) with
  | Return success_count =>
      ((found :: concat (map trace completed) ++
        [Log INFO (ChecksumCompleted success_count (length files))])%list,
       Return tt)
  | Raise e => ((found :: concat (map trace completed))%list, Raise e)
  end.
Proof.
  intros Hdir files Hfiles completed found.
  unfold blake2b_1.check_blake2_sums, is_dir, iterdir. rewrite Hdir.
  rewrite bind_ret. cbn [negb]. rewrite bind_ret. cbv zeta.
  subst completed found files.
  destruct (blake2b_1.matching_files entries (default ".iso"%string ext))
    as [|f0 files'] eqn:Efiles; [contradiction|].
  remember (f0 :: files') as files.
  set (completed := as_completed sched _).
  pose proof (count_results_trace completed 0) as Htr.
  unfold with_executor, logging_info, emit.
  destruct (blake2b_1.count_results completed 0) as [tr [n|e]];
    cbn in Htr; subst tr; cbn; rewrite ?app_nil_r; reflexivity.
Qed.

Lemma check_blake2_sums_not_a_directory sched fs directory verbose ext
      chunk_size :
  is_dir fs directory = ret false ->
  blake2b_1.check_blake2_sums sched fs directory verbose ext chunk_size =
  ([Log ERROR (NotValidDirectory directory)], Return tt).
Proof.
  intros Hdir. unfold blake2b_1.check_blake2_sums.
  rewrite Hdir. reflexivity.
Qed.

Lemma check_blake2_sums_no_match sched fs directory verbose ext chunk_size
      entries :
  fs directory = Listing entries ->
  blake2b_1.matching_files entries (default ".iso"%string ext) = [] ->
  blake2b_1.check_blake2_sums sched fs directory verbose ext chunk_size =
  ([Log WARNING (NoFilesFound (default ".iso"%string ext) directory)],
   Return tt).
Proof.
  intros Hdir Hnone. unfold blake2b_1.check_blake2_sums, is_dir, iterdir.
  rewrite Hdir. rewrite bind_ret. cbn [negb]. rewrite bind_ret. cbv zeta.
  rewrite Hnone. reflexivity.
Qed.

Lemma main_run sched fs directory verbose ext chunk_size :
  blake2b_1.main sched fs directory verbose ext chunk_size =
  let scan :=
    blake2b_1.check_blake2_sums sched fs (default "."%string directory)
      verbose (Some (default ".iso"%string ext))
      (Some (default io.DEFAULT_BUFFER_SIZE chunk_size)) in
  (((if verbose then [Log DEBUG VerboseEnabled] else []) ++ trace scan)%list,
   outcome scan).
Proof.
  unfold blake2b_1.main. cbv zeta.
  destruct (blake2b_1.check_blake2_sums _ _ _ _ _ _) as [tr r].
  destruct verbose; reflexivity.
Qed.

Lemma sum3_check_not_a_directory fs directory verbose :
  is_dir fs directory = ret false ->
  blake2_sum3.check_blake2_sums fs directory verbose =
  ([Log ERROR (NotValidDirectory directory)], Return tt).
Proof.
  intros Hdir. unfold blake2_sum3.check_blake2_sums.
  rewrite Hdir. reflexivity.
Qed.

(** *** Fair schedulers *)

Section Fair.
Variable sched : scheduler.
Hypothesis Hfair : fair sched.

Lemma fair_Forall {A} (P : future A -> Prop) (l : list (future A)) :
  Forall P l -> Forall P (as_completed sched l).
Proof.
  intros H. unfold as_completed.
  apply (Permutation_Forall (Permutation_sym (Hfair _ l))). exact H.
Qed.

Lemma count_perm {A} (P : event -> bool) (f : A -> list event) l l' :
  Permutation l l' ->
  length (filter P (concat (map f l))) =
  length (filter P (concat (map f l'))).
Proof.
  induction 1 as [|x l l' _ IH|x y l|l l' l'' _ IH1 _ IH2];
    cbn [map concat]; rewrite ?filter_app, ?length_app; lia.
Qed.

Lemma fair_count {A} (P : event -> bool) (l : list (future A)) :
  length (filter P (concat (map trace (as_completed sched l)))) =
  length (filter P (concat (map trace l))).
Proof. apply count_perm. apply Hfair. Qed.
End Fair.

(** One matching line per task. *)
Lemma one_line_each {A} (P : event -> bool) (f : A -> list event) l :
  Forall (fun x => length (filter P (f x)) = 1%nat) l ->
  length (filter P (concat (map f l))) = length l.
Proof.
  induction 1 as [|x l Hx _ IH]; [reflexivity|].
  cbn [map concat length]. rewrite filter_app, length_app, Hx, IH.
  reflexivity.
Qed.

Lemma no_line {A} (P : event -> bool) (f : A -> list event) l :
  Forall (fun x => filter P (f x) = []) l ->
  filter P (concat (map f l)) = [].
Proof.
  induction 1 as [|x l Hx _ IH]; [reflexivity|].
  cbn [map concat]. rewrite filter_app, Hx, IH. reflexivity.
Qed.

(** A scan of a directory with matching files, none of which has become
    unexaminable, with a chunk size that [read] takes: every worker
    returns, every file gets its report line, and the summary closes the
    run with [succeeded <= total]. *)
Lemma check_blake2_sums_reports sched fs directory verbose ext chunk_size
      entries :
  fair sched ->
  fs directory = Listing entries ->
  let files := blake2b_1.matching_files entries (default ".iso"%string ext) in
  files <> [] ->
  (forall f, In f files -> exists st_size, stat f = inr st_size) ->
  (forall f, In f files ->
             takes f (default io.DEFAULT_BUFFER_SIZE chunk_size)) ->
  exists workers success_count,
    blake2b_1.check_blake2_sums sched fs directory verbose ext chunk_size =
    ((Log INFO (Found (length files) (default ".iso"%string ext) directory)
        :: workers ++
        [Log INFO (ChecksumCompleted success_count (length files))])%list,
     Return tt) /\
    length (filter is_report workers) = length files /\
    filter is_summary workers = [] /\
    (success_count <= length files)%nat.
Proof.
  intros Hfair Hdir files Hfiles Hstat Hcs.
  rewrite (check_blake2_sums_run _ _ _ _ _ _ _ Hdir Hfiles). cbv zeta.
  fold files.
  set (futures := map _ files).
  assert (Hall : Forall (fun fut : future (option string) =>
                           (exists r, outcome fut = Return r) /\
                           length (filter is_report (trace fut)) = 1%nat /\
                           filter is_summary (trace fut) = []) futures).
  { apply Forall_map, Forall_forall. intros f Hf.
    destruct (process_file_reports f verbose
                (default io.DEFAULT_BUFFER_SIZE chunk_size)
                (Hstat f Hf) (Hcs f Hf))
      as (r & Hr & _ & before & line & Htr & Hbefore & Hsum & Hline).
    unfold submit. split; [eauto|]. rewrite Htr. split; [|exact Hsum].
    rewrite filter_app, Hbefore. cbn [app filter].
    destruct r as [digest|]; [subst line | destruct Hline as [e ->]];
      reflexivity. }
  assert (Hret : Forall (fun fut : future (option string) =>
                           exists r, outcome fut = Return r)
                        (as_completed sched futures)).
  { apply fair_Forall; [assumption|].
    eapply Forall_impl; [|exact Hall]. cbv beta. tauto. }
  destruct (count_results_returns _ 0%nat Hret) as [n Hn].
  rewrite Hn. exists (concat (map trace (as_completed sched futures))), n.
  split; [reflexivity|]. split; [|split].
  - rewrite fair_count by assumption.
    rewrite one_line_each.
    + unfold futures. apply length_map.
    + eapply Forall_impl; [|exact Hall]. cbv beta. tauto.
  - apply no_line. apply fair_Forall; [assumption|].
    eapply Forall_impl; [|exact Hall]. cbv beta. tauto.
  - apply count_results_bound in Hn.
    unfold as_completed in Hn.
    rewrite (Permutation_length (Hfair _ futures)) in Hn.
    unfold futures in Hn. rewrite length_map in Hn. lia.
Qed.

(** The scan of a directory holding a.iso ("hello") and b.iso (empty):
    two report lines with the digests of "hello" and of the empty input,
    and the summary 2/2. *)
Example scan_hello_and_empty :
  let a := Sample.regular "a.iso" "hello" in
  let b := Sample.regular "b.iso" EmptyString in
  blake2b_1.main in_order (Sample.listing [a; b]) (Some "isos"%string)
                 false None None =
  ([Log INFO (Found 2 ".iso" "isos");
    IoStat "isos/a.iso"; Log INFO (Processing "a.iso" 5);
    IoOpen "isos/a.iso"; IoRead "isos/a.iso" 8192; IoRead "isos/a.iso" 8192;
    IoClose "isos/a.iso"; Log INFO (Completed "a.iso" 5);
    Log INFO (DigestLine "a.iso" Sample.hello_digest);
    IoStat "isos/b.iso"; Log INFO (Processing "b.iso" 0);
    IoOpen "isos/b.iso"; IoRead "isos/b.iso" 8192;
    IoClose "isos/b.iso"; Log INFO (Completed "b.iso" 0);
    Log INFO (DigestLine "b.iso" Sample.empty_digest);
    Log INFO (ChecksumCompleted 2 2)],
   Return tt).
Proof. vm_compute. reflexivity. Qed.

(** ** Directories that are not there, and directories without a match *)



Lemma in_order_fair : fair in_order.
Proof. intros A l. apply Permutation_refl. Qed.

Lemma last_first_fair : fair last_first.
Proof. intros A l. apply Permutation_sym, Permutation_rev. Qed.





(** ** Enumeration by extension *)

Lemma lower_char_idempotent ch : lower_char (lower_char ch) = lower_char ch.
Proof. destruct ch as [[] [] [] [] [] [] [] []]; reflexivity. Qed.

Lemma lower_idempotent s : lower (lower s) = lower s.
Proof.
  induction s as [|ch s IH]; [reflexivity|].
  cbn [lower]. rewrite lower_char_idempotent, IH. reflexivity.
Qed.

(** With a target in lower case the selection is the case-insensitive
    one: the regular files whose extension is the target, letter case
    apart, and no other entry. *)
Lemma matching_files_lower_case entries ext :
  lower ext = ext ->
  blake2b_1.matching_files entries ext = filter (matches_ci ext) entries.
Proof.
  intros Hext. unfold blake2b_1.matching_files, matches_ci.
  rewrite Hext. reflexivity.
Qed.

(** A target with an upper-case letter selects nothing. *)
Lemma matching_files_mixed_case entries ext :
  lower ext <> ext -> blake2b_1.matching_files entries ext = [].
Proof.
  intros Hext. unfold blake2b_1.matching_files.
  induction entries as [|f entries IH]; [reflexivity|].
  cbn [filter]. rewrite IH.
  destruct (String.eqb_spec (lower (suffix (name f))) ext) as [E|E].
  - exfalso. apply Hext. rewrite <- E. apply lower_idempotent.
  - rewrite andb_false_r. reflexivity.
Qed.

(** C6 fails for a target extension that is not in lower case: only the
    extension of the file is lowered before the comparison, so with the
    target ".ISO" neither a.iso nor B.ISO is selected, though both match
    it case-insensitively; the scan reports that no file was found (and
    blake2_sum4.py submits no task). *)
Theorem upper_case_target_selects_nothing :
  let a := Sample.regular "a.iso" "hello" in
  let b := Sample.regular "B.ISO" EmptyString in
  let c := Sample.regular "notes.txt" "x" in
  let fs := Sample.listing [a; b; c] in
  filter (matches_ci ".ISO") [a; b; c] = [a; b] /\
  blake2b_1.matching_files [a; b; c] ".ISO" = [] /\
  blake2b_1.matching_files [a; b; c] ".iso" = [a; b] /\
  blake2b_1.check_blake2_sums in_order fs "isos" false
    (Some ".ISO"%string) None =
    ([Log WARNING (NoFilesFound ".ISO" "isos")], Return tt) /\
  blake2_sum4.check_blake2_sums in_order fs "isos" false
    (Some ".ISO"%string) None = ([], Return tt).
Proof. repeat split. Qed.

(** ** A worker that raises *)

(** [file_path.stat()] is called before the [try] block: when it fails,
    the exception leaves [calculate_blake2b] and [process_file]. *)
Lemma process_file_stat_fails p verbose chunk_size e :
  stat p = inl e ->
  blake2b_1.process_file p verbose chunk_size =
  ([IoStat (path p)], Raise (OSError e)).
Proof.
  intros Hst. rewrite process_file_run. cbv zeta.
  rewrite (calculate_blake2b_stat_fails _ _ _ _ Hst). reflexivity.
Qed.

(** C7 fails on a file that can no longer be examined when its worker
    starts (b.iso, removed after the directory was listed): [stat] raises
    outside the [try] block, the exception comes back through
    [future.result()], b.iso gets no report line, and the run ends without
    the summary line. The same happens for every file when the chunk size
    is below -1, where the first read raises [ValueError]. *)
Theorem vanished_file_gets_no_report_line :
  let a := Sample.regular "a.iso" "hello" in
  let b := Sample.vanished (Sample.regular "b.iso" EmptyString) in
  let run := blake2b_1.main in_order (Sample.listing [a; b])
               (Some "isos"%string) false None None in
  let run' := blake2b_1.main in_order (Sample.listing [a])
                (Some "isos"%string) false None (Some (-2)) in
  blake2b_1.matching_files [a; b] ".iso" = [a; b] /\
  filter is_report (trace run) =
    [Log INFO (DigestLine "a.iso" Sample.hello_digest)] /\
  filter is_summary (trace run) = [] /\
  outcome run = Raise (OSError "No such file or directory") /\
  run' = ([Log INFO (Found 1 ".iso" "isos"); IoStat "isos/a.iso";
           Log INFO (Processing "a.iso" 5); IoOpen "isos/a.iso";
           IoRead "isos/a.iso" (-2); IoClose "isos/a.iso"],
          Raise (ValueError "read length must be non-negative or -1")).
Proof. vm_compute. repeat split. Qed.

(** C9 fails on the same input: two tasks are enumerated, the worker of
    b.iso ends with an exception instead of a result, and the counting
    loop stops at that future, whatever the completion order, so that no
    final count is reported and the process exits with code 1. *)
Theorem vanished_file_aborts_the_count :
  let a := Sample.regular "a.iso" "hello" in
  let b := Sample.vanished (Sample.regular "b.iso" EmptyString) in
  let fs := Sample.listing [a; b] in
  length (blake2b_1.matching_files [a; b] ".iso") = 2%nat /\
  blake2b_1.process_file b false io.DEFAULT_BUFFER_SIZE =
    ([IoStat "isos/b.iso"], Raise (OSError "No such file or directory")) /\
  blake2b_1.main in_order fs (Some "isos"%string) false None None =
    ([Log INFO (Found 2 ".iso" "isos"); IoStat "isos/a.iso";
      Log INFO (Processing "a.iso" 5); IoOpen "isos/a.iso";
      IoRead "isos/a.iso" 8192; IoRead "isos/a.iso" 8192;
      IoClose "isos/a.iso"; Log INFO (Completed "a.iso" 5);
      Log INFO (DigestLine "a.iso" Sample.hello_digest);
      IoStat "isos/b.iso"],
     Raise (OSError "No such file or directory")) /\
  outcome (blake2b_1.main last_first fs (Some "isos"%string)
                          false None None) =
    Raise (OSError "No such file or directory") /\
  exit_code (blake2b_1.main in_order fs (Some "isos"%string)
                            false None None) = 1 /\
  exit_code (blake2b_1.main last_first fs (Some "isos"%string)
                            false None None) = 1.
Proof. vm_compute. repeat split. Qed.

(** ** The chunks of a readable file *)

Lemma chunks_nil size : chunks size [] = [].
Proof. destruct size; reflexivity. Qed.

Lemma chunks_cons k x tl :
  chunks (S k) (x :: tl) =
  firstn (S k) (x :: tl) :: chunks (S k) (skipn (S k) (x :: tl)).
Proof. simp chunks. reflexivity. Qed.

(** The chunks are the content, cut into pieces. *)
Lemma chunks_concat size rest :
  (0 < size)%nat -> concat (chunks size rest) = rest.
Proof.
  intros Hsize. funelim (chunks size rest); [lia | reflexivity |].
  cbn [concat]. rewrite H by lia. apply firstn_skipn.
Qed.

Lemma chunks_bounds size rest :
  Forall (fun chunk => (0 < length chunk <= size)%nat) (chunks size rest).
Proof.
  funelim (chunks size rest); [constructor | constructor |].
  constructor; [|exact H].
  rewrite length_firstn. cbn [length]. lia.
Qed.

(** There are [ceil (len / size)] of them. *)
Lemma chunks_length size rest :
  (0 < size)%nat ->
  length (chunks size rest) = ((length rest + size - 1) / size)%nat.
Proof.
  intros Hsize. funelim (chunks size rest); [lia | |].
  - cbn [length]. symmetry. apply Nat.div_small. lia.
  - cbn [length]. rewrite H by lia. rewrite length_skipn.
    cbn [length]. clear H Heqcall.
    set (n := S k) in *. set (len := S (length tl)).
    destruct (Nat.le_gt_cases len n) as [Hle|Hgt].
    + replace (len - n)%nat with 0%nat by lia.
      rewrite (Nat.div_small (0 + n - 1)) by lia.
      apply (Nat.div_unique _ _ 1 (len - 1)); lia.
    + replace (len + n - 1)%nat with ((len - n + n - 1) + 1 * n)%nat by lia.
      rewrite Nat.div_add by lia. lia.
Qed.

(** The run of the loop on a file that reads without error, with a
    positive chunk size that [read] takes: one read and the side effects
    of the variant per chunk, then the read that meets the end of the
    file. *)
Lemma read_chunks_readable after size f n blake2 :
  read_error (h_file f) = None -> 0 < size -> refused f size = None ->
  read_chunks after size f n blake2 =
  ((flat_map (fun ic => IoRead (path (h_file f)) size
                          :: after (fst ic) (snd ic))
             (combine (seq (S n) (length (chunks (Z.to_nat size) (data f))))
                      (chunks (Z.to_nat size) (data f)))
    ++ [IoRead (path (h_file f)) size])%list,
   Return (hashlib.update blake2 (data f))).
Proof.
  funelim (read_chunks after size f n blake2); intros Herr Hsize Htakes;
    match goal with
    | Hr : read _ _ = _ |- _ =>
        let R := fresh "R" in
        pose proof Hr as R;
        rewrite read_ok in R by (auto using fails_now_readable);
        try discriminate R; injection R as Hc Hf
    end.
  - rewrite (chunk_of_nil size (data f)) by (assumption || lia).
    rewrite chunks_nil. reflexivity.
  - subst f'. apply refused_advance in Htakes.
    cbn [advance h_file data] in H.
    rewrite (H tt) by assumption. clear H Heqcall Htakes.
    unfold chunk_of, rest_after in *.
    destruct (Z.eqb_spec size (-1)); [lia|].
    destruct (Z.to_nat size) as [|k] eqn:Ek; [lia|].
    destruct (data f) as [|y d] eqn:Ed; [discriminate|].
    rewrite chunks_cons, Hc. cbn [length seq combine flat_map fst snd].
    unfold bind. rewrite <- app_assoc. cbn [app].
    unfold hashlib.update.
    rewrite <- blake2b_update_app. do 3 f_equal.
    rewrite <- Hc. apply firstn_skipn.
Qed.

(** ** What a run shows about the chunks *)

Section Observed.
Context {X : Type} (g : event -> list X).
Hypothesis g_read : forall path size, g (IoRead path size) = [].

(** An observation that ignores the reads sees the side effects of the
    loop body, chunk by chunk. *)
Lemma loop_observed after path size start (cs : list (list byte)) :
  flat_map g
    (flat_map (fun ic => IoRead path size :: after (fst ic) (snd ic))
              (combine (seq start (length cs)) cs)
     ++ [IoRead path size]) =
  flat_map (fun ic => flat_map g (after (fst ic) (snd ic)))
           (combine (seq start (length cs)) cs).
Proof.
  rewrite flat_map_app. cbn [flat_map]. rewrite g_read, !app_nil_r.
  revert start. induction cs as [|chunk cs IH]; intros start;
    [reflexivity|].
  cbn [length seq combine flat_map fst snd app].
  rewrite g_read, flat_map_app, IH. reflexivity.
Qed.
End Observed.

Lemma numbered_lengths start (cs : list (list byte)) :
  flat_map (fun ic : nat * list byte => [(fst ic, length (snd ic))])
           (combine (seq start (length cs)) cs) =
  combine (seq start (length cs)) (map (@length byte) cs).
Proof.
  revert start. induction cs as [|chunk cs IH]; intros start;
    [reflexivity|].
  cbn [length seq combine flat_map map fst snd app]. rewrite IH.
  reflexivity.
Qed.

Lemma only_lengths start (cs : list (list byte)) :
  flat_map (fun ic : nat * list byte => [length (snd ic)])
           (combine (seq start (length cs)) cs) =
  map (@length byte) cs.
Proof.
  revert start. induction cs as [|chunk cs IH]; intros start;
    [reflexivity|].
  cbn [length seq combine flat_map map fst snd app]. rewrite IH.
  reflexivity.
Qed.

Lemma only_ones start (cs : list (list byte)) :
  flat_map (fun ic : nat * list byte => [1%nat])
           (combine (seq start (length cs)) cs) =
  repeat 1%nat (length cs).
Proof.
  revert start. induction cs as [|chunk cs IH]; intros start;
    [reflexivity|].
  cbn [length seq combine flat_map repeat app]. rewrite IH. reflexivity.
Qed.

Lemma nothing_observed {X} start (cs : list (list byte)) :
  flat_map (fun ic : nat * list byte => @nil X)
           (combine (seq start (length cs)) cs) = [].
Proof.
  revert start. induction cs as [|chunk cs IH]; intros start;
    [reflexivity|].
  cbn [length seq combine flat_map app]. apply IH.
Qed.

Lemma list_sum_lengths (cs : list (list byte)) :
  list_sum (map (@length byte) cs) = length (concat cs).
Proof.
  induction cs as [|chunk cs IH]; [reflexivity|].
  change (length chunk + list_sum (map (@length byte) cs) =
          length (chunk ++ concat cs))%nat.
  rewrite length_app, IH. reflexivity.
Qed.

(** X1. blake2b_1.py, verbose, a readable file and a positive chunk size
    that [read] takes: the progress bar advances by the length of each
    chunk, so its steps are positive, at most the chunk size, and add up
    to the number of bytes of the file; when not verbose the bar is never
    updated. *)
Theorem progress_adds_up_to_the_content p size :
  readable p -> 0 < size -> takes p size ->
  let steps :=
    pbar_steps (trace (blake2b_1.calculate_blake2b p true (Some size))) in
  steps = map (@length byte) (chunks (Z.to_nat size) (content p)) /\
  list_sum steps = length (content p) /\
  Forall (fun n => (0 < n <= Z.to_nat size)%nat) steps /\
  pbar_steps (trace (blake2b_1.calculate_blake2b p false (Some size))) = [].
Proof.
  intros ([st_size Hst] & Hop & Hrd) Hsize Htakes steps.
  apply takes_opened in Htakes.
  assert (Hsteps : steps =
                   map (@length byte) (chunks (Z.to_nat size) (content p))).
  { subst steps. rewrite (calculate_blake2b_run _ _ _ _ Hst Hop).
    cbv zeta. cbn [default].
    rewrite read_chunks_readable by assumption.
    cbn [outcome snd trace fst opened h_file data].
    unfold pbar_steps. do 2 rewrite flat_map_app.
    rewrite (loop_observed _ (fun _ _ => eq_refl)).
    cbn [flat_map app blake2b_1.after_chunk]. rewrite app_nil_r.
    apply only_lengths. }
  split; [exact Hsteps|]. rewrite Hsteps. split; [|split].
  - rewrite list_sum_lengths, chunks_concat by lia. reflexivity.
  - apply Forall_map. apply chunks_bounds.
  - rewrite (calculate_blake2b_run _ _ _ _ Hst Hop).
    cbv zeta. cbn [default].
    rewrite read_chunks_readable by assumption.
    cbn [outcome snd trace fst opened h_file data].
    unfold pbar_steps. do 2 rewrite flat_map_app.
    rewrite (loop_observed _ (fun _ _ => eq_refl)).
    cbn [flat_map app blake2b_1.after_chunk]. rewrite app_nil_r.
    apply nothing_observed.
Qed.

(** "hello" read two bytes at a time: steps of 2, 2 and 1. *)
Lemma progress_adds_up_to_the_content_witness :
  let p := Sample.regular "a.iso" "hello" in
  readable p /\ 0 < 2 /\ takes p 2 /\
  pbar_steps (trace (blake2b_1.calculate_blake2b p true (Some 2))) =
    [2; 2; 1]%nat.
Proof.
  intros p.
  assert (H2 : 0 < 2) by lia.
  assert (Ht : takes p 2) by sample_takes.
  destruct (progress_adds_up_to_the_content p 2 (regular_readable _ _) H2 Ht)
    as (Hsteps & _).
  split; [apply regular_readable|]. split; [exact H2|]. split; [exact Ht|].
  rewrite Hsteps. reflexivity.
Defined.

(** ** blake2_sum3.py: one file *)

Lemma calculate_blake2b_v3_stat_fails p verbose e :
  stat p = inl e ->
  blake2_sum3.calculate_blake2b p verbose = ([IoStat (path p)], Raise (OSError e)).
Proof.
  intros Hst. unfold blake2_sum3.calculate_blake2b, path_stat.
  rewrite Hst. reflexivity.
Qed.

Lemma calculate_blake2b_v3_open_fails p verbose st_size e :
  stat p = inr st_size -> open_error p = Some e ->
  blake2_sum3.calculate_blake2b p verbose =
  ([IoStat (path p); Log INFO (Processing (name p) st_size);
    IoOpen (path p); Log ERROR (ErrorReading (path p) e)],
   Return None).
Proof.
  intros Hst Hop. unfold blake2_sum3.calculate_blake2b, path_stat, with_open.
  rewrite Hst, Hop. reflexivity.
Qed.

Lemma calculate_blake2b_v3_run p verbose st_size :
  stat p = inr st_size -> open_error p = None ->
  blake2_sum3.calculate_blake2b p verbose =
  let loop :=
    read_chunks (blake2_sum3.after_chunk verbose) io.DEFAULT_BUFFER_SIZE
                (opened p) 0 hashlib.blake2b in
  let before :=
    [IoStat (path p); Log INFO (Processing (name p) st_size);
     IoOpen (path p)] in
  match outcome loop with
  | Return blake2 =>
      ((before ++ trace loop ++
        [IoClose (path p); Log INFO (Completed (name p) st_size)])%list,
       Return (Some (hashlib.hexdigest blake2)))
  | Raise (OSError e) =>
      ((before ++ trace loop ++
        [IoClose (path p); Log ERROR (ErrorReading (path p) e)])%list,
       Return None)
  | Raise e => ((before ++ trace loop ++ [IoClose (path p)])%list, Raise e)
  end.
Proof.
  intros Hst Hop. unfold blake2_sum3.calculate_blake2b, path_stat, with_open.
  rewrite Hst, Hop. cbv zeta. run_shape.
Qed.

(** X2. blake2_sum3.py: a readable file gets the hexadecimal BLAKE2b-512
    digest of its content, and in verbose mode one debug line per chunk,
    numbered from 1 without a gap, each chunk at most the default buffer
    size and the lengths adding up to the size of the content. *)
Theorem sum3_numbers_the_chunks p :
  readable p ->
  let run := blake2_sum3.calculate_blake2b p true in
  let lens :=
    map (@length byte)
        (chunks (Z.to_nat io.DEFAULT_BUFFER_SIZE) (content p)) in
  outcome run = Return (Some (hex (Blake2b.blake2b_512 (content p)))) /\
  outcome (blake2_sum3.calculate_blake2b p false) = outcome run /\
  chunk_lines (trace run) = combine (seq 1 (length lens)) lens /\
  list_sum lens = length (content p) /\
  chunk_lines (trace (blake2_sum3.calculate_blake2b p false)) = [].
Proof.
  intros ([st_size Hst] & Hop & Hrd) run lens. subst run.
  assert (Hsize : 0 < io.DEFAULT_BUFFER_SIZE) by reflexivity.
  rewrite !(calculate_blake2b_v3_run _ _ _ Hst Hop). cbv zeta.
  rewrite !read_chunks_readable by (assumption || apply refused_default).
  cbn [outcome snd trace fst opened h_file data].
  rewrite hexdigest_update.
  split; [reflexivity|]. split; [reflexivity|]. split; [|split].
  - unfold chunk_lines. do 2 rewrite flat_map_app.
    rewrite (loop_observed _ (fun _ _ => eq_refl)).
    cbn [flat_map app blake2_sum3.after_chunk]. rewrite app_nil_r.
    rewrite numbered_lengths. subst lens. rewrite length_map. reflexivity.
  - subst lens. rewrite list_sum_lengths, chunks_concat; [reflexivity|].
    vm_compute. lia.
  - unfold chunk_lines. do 2 rewrite flat_map_app.
    rewrite (loop_observed _ (fun _ _ => eq_refl)).
    cbn [flat_map app blake2_sum3.after_chunk]. rewrite app_nil_r.
    apply nothing_observed.
Qed.

(** A file of five bytes is one chunk. *)
Lemma sum3_numbers_the_chunks_witness :
  let p := Sample.regular "a.iso" "hello" in
  readable p /\
  outcome (blake2_sum3.calculate_blake2b p true) =
    Return (Some Sample.hello_digest) /\
  chunk_lines (trace (blake2_sum3.calculate_blake2b p true)) = [(1, 5)]%nat.
Proof.
  intros p.
  destruct (sum3_numbers_the_chunks p (regular_readable _ _))
    as (Hd & _ & Hlines & _).
  split; [apply regular_readable|]. split.
  - rewrite Hd. unfold p. cbn [Sample.regular content].
    rewrite blake2b_512_hello. reflexivity.
  - rewrite Hlines. reflexivity.
Defined.

(** ** blake2_sum4.py: the progress bar *)

Lemma ceil_div len size :
  0 <= len -> 0 < size ->
  (len + size - 1) / size =
  if len mod size =? 0 then len / size else len / size + 1.
Proof.
  intros Hlen Hsize.
  pose proof (Z.div_mod len size ltac:(lia)) as E.
  pose proof (Z.mod_pos_bound len size Hsize) as B.
  destruct (Z.eqb_spec (len mod size) 0) as [H0|H0].
  - symmetry. apply (Z.div_unique _ _ _ (size - 1)); [lia|].
    rewrite H0 in E. lia.
  - symmetry. apply (Z.div_unique _ _ _ (len mod size - 1)); lia.
Qed.

(** X3. blake2_sum4.py, verbose, a readable file and a positive chunk size
    that [read] takes: the progress bar advances by one per chunk,
    [ceil (len / chunk_size)] times in all, while its total is
    [file_size // chunk_size + 1]: when the chunk size divides the size of
    the file (the empty file included) the bar stops one step short of its
    total, and otherwise it ends on it. *)
Theorem sum4_bar_steps p size :
  readable p -> 0 < size -> takes p size ->
  stat p = inr (Z.of_nat (length (content p))) ->
  let len := Z.of_nat (length (content p)) in
  let steps :=
    pbar_steps (trace (blake2_sum4.calculate_blake2b p true (Some size))) in
  let total := len / size + 1 in
  blake2_sum4.tqdm_total len size = ret total /\
  steps = repeat 1%nat (length (chunks (Z.to_nat size) (content p))) /\
  Z.of_nat (list_sum steps) =
    (if len mod size =? 0 then total - 1 else total).
Proof.
  intros (_ & Hop & Hrd) Hsize Htakes Hst len steps total.
  apply takes_opened in Htakes.
  assert (Hsteps : steps =
            repeat 1%nat (length (chunks (Z.to_nat size) (content p)))).
  { subst steps.
    rewrite (calculate_blake2b_v4_run _ _ _ _ Hst Hop) by (cbn; lia).
    cbv zeta. cbn [default].
    rewrite read_chunks_readable by assumption.
    cbn [outcome snd trace fst opened h_file data].
    unfold pbar_steps. do 2 rewrite flat_map_app.
    rewrite (loop_observed _ (fun _ _ => eq_refl)).
    cbn [flat_map app blake2_sum4.after_chunk]. rewrite app_nil_r.
    apply only_ones. }
  split; [|split; [exact Hsteps|]].
  - unfold blake2_sum4.tqdm_total.
    destruct (Z.eqb_spec size 0); [lia | reflexivity].
  - rewrite Hsteps.
    assert (Hsum : forall n, list_sum (repeat 1%nat n) = n).
    { induction n as [|n IH]; [reflexivity|].
      change (list_sum (repeat 1%nat (S n))) with (S (list_sum (repeat 1%nat n))).
      now rewrite IH. }
    rewrite Hsum, chunks_length by lia.
    pose proof (ceil_div len size ltac:(lia) Hsize) as Hceil.
    replace (Z.of_nat ((length (content p) + Z.to_nat size - 1) / Z.to_nat size))
      with ((len + size - 1) / size).
    + rewrite Hceil. subst total.
      destruct (len mod size =? 0); lia.
    + subst len. rewrite Nat2Z.inj_div.
      f_equal; lia.
Qed.

(** Four bytes read two at a time: two steps for a total of three. *)
Lemma sum4_bar_steps_witness :
  let p := Sample.regular "a.iso" "abcd" in
  readable p /\ 0 < 2 /\ takes p 2 /\
  pbar_steps (trace (blake2_sum4.calculate_blake2b p true (Some 2))) =
    [1; 1]%nat /\
  blake2_sum4.tqdm_total 4 2 = ret 3.
Proof.
  intros p.
  assert (H2 : 0 < 2) by lia.
  assert (Ht : takes p 2) by sample_takes.
  destruct (sum4_bar_steps p 2 (regular_readable _ _) H2 Ht eq_refl)
    as (Htotal & Hsteps & _).
  split; [apply regular_readable|]. split; [exact H2|].
  split; [exact Ht|]. split.
  - rewrite Hsteps. reflexivity.
  - exact Htotal.
Defined.

(** ** The file object is closed, and the reads stop at the end *)

Lemma filter_repeat_reads path size n :
  filter is_read (repeat (IoRead path size) n) = repeat (IoRead path size) n.
Proof.
  induction n as [|n IH]; [reflexivity|].
  cbn [repeat filter is_read]. rewrite IH. reflexivity.
Qed.

Lemma reads_of_loop after path size start (cs : list (list byte)) :
  (forall i chunk, filter is_read (after i chunk) = []) ->
  filter is_read
    (flat_map (fun ic => IoRead path size :: after (fst ic) (snd ic))
              (combine (seq start (length cs)) cs)
     ++ [IoRead path size]) =
  repeat (IoRead path size) (S (length cs)).
Proof.
  intros Hafter. rewrite filter_app. cbn [filter is_read].
  replace (repeat (IoRead path size) (S (length cs)))
    with (repeat (IoRead path size) (length cs) ++ [IoRead path size])%list
    by (rewrite <- repeat_cons; reflexivity).
  f_equal. revert start.
  induction cs as [|chunk cs IH]; intros start; [reflexivity|].
  cbn [length seq combine flat_map fst snd repeat].
  change (IoRead path size :: after start chunk ++
          flat_map (fun ic => IoRead path size :: after (fst ic) (snd ic))
                   (combine (seq (S start) (length cs)) cs))%list
    with ((IoRead path size :: after start chunk) ++
          flat_map (fun ic => IoRead path size :: after (fst ic) (snd ic))
                   (combine (seq (S start) (length cs)) cs))%list.
  rewrite filter_app, IH. cbn [filter is_read]. rewrite Hafter.
  reflexivity.
Qed.

(** X4. blake2b_1.py: once the file is open, [calculate_blake2b] closes
    it exactly once and reads nothing after that, whether it returns a
    digest, returns [None] after a read error or lets an exception of
    [read] through; when the open fails there is no read and no close. A
    readable file read with a positive chunk size that [read] takes needs
    one read per chunk and one more that meets the end of the file, each
    of the chunk size. *)
Theorem file_is_closed_once p verbose chunk_size st_size :
  stat p = inr st_size ->
  let size := default io.DEFAULT_BUFFER_SIZE chunk_size in
  let tr := trace (blake2b_1.calculate_blake2b p verbose chunk_size) in
  (forall e, open_error p = Some e ->
     filter is_read tr = [] /\ filter is_close tr = []) /\
  (open_error p = None ->
     exists before after,
       tr = (before ++ IoClose (path p) :: after)%list /\
       filter is_close before = [] /\
       filter is_close after = [] /\ filter is_read after = []) /\
  (open_error p = None -> read_error p = None -> 0 < size ->
     takes p size ->
     filter is_read tr =
     repeat (IoRead (path p) size)
            (S (length (chunks (Z.to_nat size) (content p))))).
Proof.
  intros Hst size tr. split; [|split].
  - intros e Hop. subst tr.
    rewrite (calculate_blake2b_open_fails _ _ _ _ _ Hst Hop).
    split; reflexivity.
  - intros Hop. subst tr.
    rewrite (calculate_blake2b_run _ _ _ _ Hst Hop). cbv zeta. fold size.
    set (loop := read_chunks _ _ _ _ _).
    pose proof (read_chunks_quiet is_close (blake2b_1.after_chunk verbose)
                  size (opened p) 0 hashlib.blake2b
                  (fun _ _ => eq_refl)
                  (after_chunk_quiet is_close verbose (fun _ => eq_refl)))
      as Hquiet.
    fold loop in Hquiet.
    exists ([IoStat (path p); Log INFO (Processing (name p) st_size);
             IoOpen (path p)] ++ trace loop)%list.
    destruct (outcome loop) as [blake2|[e|e|e|e|]]; cbn [trace fst];
      eexists; (split; [rewrite <- app_assoc; reflexivity|]);
      rewrite filter_app, Hquiet; repeat split.
  - intros Hop Hrd Hsize Htakes. apply takes_opened in Htakes. subst tr.
    rewrite (calculate_blake2b_run _ _ _ _ Hst Hop). cbv zeta. fold size.
    rewrite read_chunks_readable by assumption.
    cbn [outcome snd trace fst opened h_file data].
    rewrite !filter_app.
    rewrite <- (filter_app is_read
                  (flat_map _ _) [IoRead (path p) size]).
    rewrite reads_of_loop by (apply after_chunk_quiet; reflexivity).
    cbn [filter is_read app]. rewrite app_nil_r. reflexivity.
Qed.

(** A chunk size of -2: the read raises [ValueError], the file is closed
    all the same. *)
Lemma file_is_closed_once_witness :
  let p := Sample.regular "a.iso" "hello" in
  stat p = inr 5 /\
  blake2b_1.calculate_blake2b p false (Some (-2)) =
    ([IoStat "isos/a.iso"; Log INFO (Processing "a.iso" 5);
      IoOpen "isos/a.iso"; IoRead "isos/a.iso" (-2); IoClose "isos/a.iso"],
     Raise (ValueError "read length must be non-negative or -1")) /\
  exists before after,
    trace (blake2b_1.calculate_blake2b p false (Some (-2))) =
      (before ++ IoClose (path p) :: after)%list /\
    filter is_close before = [] /\ filter is_close after = [].
Proof.
  intros p.
  destruct (file_is_closed_once p false (Some (-2)) 5 eq_refl)
    as (_ & Hclose & _).
  destruct (Hclose eq_refl) as (before & after & Htr & Hb & Ha & _).
  split; [reflexivity|]. split; [reflexivity|].
  exists before, after. repeat split; assumption.
Defined.

(** ** The text of a digest *)

Lemma hex_digit_is_hex n : is_hex_digit (hex_digit n) = true.
Proof.
  destruct n as [|q]; [reflexivity|].
  do 4 (destruct q as [q|q|]; try reflexivity).
Qed.

Lemma hex_shape bs :
  String.length (hex bs) = (2 * length bs)%nat /\
  all_chars is_hex_digit (hex bs) = true.
Proof.
  induction bs as [|x bs [IHlen IHall]]; [split; reflexivity|].
  cbn [hex String.length all_chars length].
  rewrite IHlen, IHall, !hex_digit_is_hex. split; [lia | reflexivity].
Qed.

Lemma hexdigest_shape blake2 :
  Blake2b.outlen blake2 = 64%nat ->
  String.length (hashlib.hexdigest blake2) = 128%nat /\
  all_chars is_hex_digit (hashlib.hexdigest blake2) = true.
Proof.
  intros Hlen. unfold hashlib.hexdigest.
  destruct (hex_shape (Blake2b.blake2b_final blake2)) as [Hl Ha].
  split; [|exact Ha]. rewrite Hl.
  unfold Blake2b.blake2b_final, Blake2b.out_bytes.
  cbn [Blake2b.outlen Blake2b.blake2b_compress Blake2b.add_counter].
  rewrite length_map, length_seq, Hlen. reflexivity.
Qed.

(** X5. blake2b_1.py: whatever the file and the chunk size, a digest that
    [calculate_blake2b] returns is a text of 128 lower-case hexadecimal
    digits; it is never empty, so the test [if blake2_hash] of
    [process_file] and of the counting loop holds for every digest. *)
Theorem digest_is_128_hex_digits p verbose chunk_size digest :
  outcome (blake2b_1.calculate_blake2b p verbose chunk_size) =
    Return (Some digest) ->
  String.length digest = 128%nat /\
  all_chars is_hex_digit digest = true /\
  truthy (Some digest) = true.
Proof.
  intros Hrun.
  assert (Hshape : String.length digest = 128%nat /\
                   all_chars is_hex_digit digest = true).
  { destruct (stat p) as [e|st_size] eqn:Hst.
    { rewrite (calculate_blake2b_stat_fails _ _ _ _ Hst) in Hrun.
      discriminate. }
    destruct (open_error p) as [e|] eqn:Hop.
    { rewrite (calculate_blake2b_open_fails _ _ _ _ _ Hst Hop) in Hrun.
      discriminate. }
    rewrite (calculate_blake2b_run _ _ _ _ Hst Hop) in Hrun.
    cbv zeta in Hrun.
    destruct (outcome (read_chunks _ _ _ _ _)) as [blake2|[e|e|e|e|]] eqn:Hloop;
      try discriminate.
    injection Hrun as <-.
    apply hexdigest_shape.
    apply (read_chunks_outlen _ _ _ _ _ _ Hloop). }
  destruct Hshape as [Hlen Hall]. repeat split; try assumption.
  destruct digest; [discriminate | reflexivity].
Qed.

(** The digest of "hello". *)
Lemma digest_is_128_hex_digits_witness :
  let p := Sample.regular "a.iso" "hello" in
  outcome (blake2b_1.calculate_blake2b p false None) =
    Return (Some Sample.hello_digest) /\
  String.length Sample.hello_digest = 128%nat.
Proof.
  intros p.
  assert (H : outcome (blake2b_1.calculate_blake2b p false None) =
              Return (Some Sample.hello_digest)) by (vm_compute; reflexivity).
  split; [exact H|].
  apply (digest_is_128_hex_digits p false None _ H).
Defined.

(** ** The counting loop and the summary of blake2b_1.py *)

Lemma count_results_counts completed acc :
  Forall (fun fut : future (option string) =>
            exists r, outcome fut = Return r) completed ->
  blake2b_1.count_results completed acc =
  ([], Return (acc + length (filter delivers completed))%nat).
Proof.
  intros Hall. revert acc.
  induction Hall as [|fut rest [r Hr] _ IH]; intros acc.
  - cbn [blake2b_1.count_results filter length]. rewrite Nat.add_0_r.
    reflexivity.
  - cbn [blake2b_1.count_results filter]. unfold delivers at 1.
    destruct fut as [tr [r'|e]]; cbn in Hr; [|discriminate].
    injection Hr as ->. cbn [outcome snd].
    unfold future_result, bind. cbn [outcome snd].
    rewrite IH. cbn [app].
    destruct (truthy r); cbn [length]; do 2 f_equal; lia.
Qed.

Lemma count_results_stops pre fut post acc e :
  Forall (fun fut : future (option string) =>
            exists r, outcome fut = Return r) pre ->
  outcome fut = Raise e ->
  blake2b_1.count_results (pre ++ fut :: post) acc = ([], Raise e).
Proof.
  intros Hpre Hfut. revert acc.
  induction Hpre as [|fut' rest [r Hr] _ IH]; intros acc; cbn [app].
  - cbn [blake2b_1.count_results]. unfold future_result, bind.
    rewrite Hfut. reflexivity.
  - cbn [blake2b_1.count_results]. unfold future_result, bind.
    rewrite Hr. rewrite IH. reflexivity.
Qed.

(** X6. The counting loop of [check_blake2_sums] in blake2b_1.py: when
    every completed future holds a value, the count grows by the number of
    futures holding a digest; at the first future that holds an exception
    the loop raises it, and the futures after it are not looked at. *)
Theorem counting_loop_counts_or_stops :
  (forall completed acc,
     Forall (fun fut : future (option string) =>
               exists r, outcome fut = Return r) completed ->
     blake2b_1.count_results completed acc =
     ([], Return (acc + length (filter delivers completed))%nat)) /\
  (forall pre fut post acc e,
     Forall (fun fut : future (option string) =>
               exists r, outcome fut = Return r) pre ->
     outcome fut = Raise e ->
     blake2b_1.count_results (pre ++ fut :: post) acc = ([], Raise e)).
Proof.
  split.
  - apply count_results_counts.
  - apply count_results_stops.
Qed.

(** A digest, a failure and a digest give 2; an exception in the middle
    is raised, whatever comes after it. *)
Lemma counting_loop_counts_or_stops_witness :
  let ok : future (option string) := ([], Return (Some "ab"%string)) in
  let none : future (option string) := ([], Return None) in
  let bad : future (option string) := ([], Raise (OSError "gone")) in
  blake2b_1.count_results [ok; none; ok] 0 = ([], Return 2%nat) /\
  blake2b_1.count_results ([ok] ++ bad :: [ok]) 0 =
    ([], Raise (OSError "gone")).
Proof.
  intros ok none bad.
  destruct counting_loop_counts_or_stops as [Hcount Hstop].
  split.
  - rewrite Hcount; [reflexivity|].
    repeat constructor; eexists; reflexivity.
  - apply Hstop; [|reflexivity].
    repeat constructor; eexists; reflexivity.
Defined.

(** The digest and error lines are among the report lines. *)
Lemma digest_lines_reports tr :
  digest_lines tr = digest_lines (filter is_report tr).
Proof.
  induction tr as [|ev tr IH]; [reflexivity|].
  destruct ev as [l m| | | | | |]; try exact IH.
  destruct m; cbn [filter is_report]; try exact IH;
    cbn [digest_lines flat_map]; fold (digest_lines tr);
    fold (digest_lines (filter is_report tr)); rewrite IH; reflexivity.
Qed.

Lemma error_lines_reports tr :
  error_lines tr = error_lines (filter is_report tr).
Proof.
  induction tr as [|ev tr IH]; [reflexivity|].
  destruct ev as [l m| | | | | |]; try exact IH.
  destruct m; cbn [filter is_report]; try exact IH;
    cbn [error_lines flat_map]; fold (error_lines tr);
    fold (error_lines (filter is_report tr)); rewrite IH; reflexivity.
Qed.

Lemma process_file_outcome p verbose chunk_size :
  outcome (blake2b_1.process_file p verbose chunk_size) =
  outcome (blake2b_1.calculate_blake2b p verbose (Some chunk_size)).
Proof.
  rewrite process_file_run. cbv zeta.
  destruct (outcome (blake2b_1.calculate_blake2b _ _ _)); reflexivity.
Qed.

(** The lines of one worker. *)
Lemma process_file_lines p verbose chunk_size :
  (exists st_size, stat p = inr st_size) -> takes p chunk_size ->
  let fut := blake2b_1.process_file p verbose chunk_size in
  exists r,
    outcome fut = Return r /\
    delivers fut = match r with Some _ => true | None => false end /\
    digest_lines (trace fut) =
      match r with Some digest => [(name p, digest)] | None => [] end /\
    match r with
    | Some _ => error_lines (trace fut) = []
    | None => exists e, error_lines (trace fut) = [(path p, e)]
    end.
Proof.
  intros Hst Hcs fut.
  destruct (process_file_reports p verbose chunk_size Hst Hcs)
    as (r & Hr & Htruthy & before & line & Htr & Hbefore & _ & Hline).
  exists r. subst fut. split; [exact Hr|].
  unfold delivers. rewrite Hr, Htr.
  rewrite digest_lines_reports, error_lines_reports.
  rewrite filter_app, Hbefore. cbn [app].
  destruct r as [digest|].
  - subst line. split; [apply Htruthy; discriminate|].
    split; reflexivity.
  - destruct Hline as [e ->]. split; [reflexivity|].
    split; [reflexivity | exists e; reflexivity].
Qed.

Lemma lines_of_completed (l : list (future (option string))) :
  Forall (fun fut =>
            length (digest_lines (trace fut)) =
              (if delivers fut then 1 else 0)%nat /\
            length (error_lines (trace fut)) =
              (if delivers fut then 0 else 1)%nat) l ->
  length (digest_lines (concat (map trace l))) = length (filter delivers l) /\
  (length (error_lines (concat (map trace l))) +
   length (filter delivers l))%nat = length l.
Proof.
  induction 1 as [|fut l [Hd He] _ [IHd IHe]]; [split; reflexivity|].
  cbn [map concat filter length].
  unfold digest_lines, error_lines in *. rewrite !flat_map_app, !length_app.
  rewrite Hd, He, IHd.
  destruct (delivers fut); cbn [length]; split; lia.
Qed.



Lemma lines_of_tasks {X} (g : event -> list X)
      (l : list (future (option string))) :
  flat_map g (concat (map trace l)) =
  flat_map (fun fut => flat_map g (trace fut)) l.
Proof.
  induction l as [|fut l IH]; [reflexivity|].
  cbn [map concat flat_map]. rewrite flat_map_app, IH. reflexivity.
Qed.

(** A worker on a readable file. *)
Lemma process_file_readable p verbose chunk_size :
  readable p -> 0 < chunk_size \/ chunk_size = -1 ->
  takes p chunk_size ->
  let fut := blake2b_1.process_file p verbose chunk_size in
  outcome fut = Return (Some (hex (Blake2b.blake2b_512 (content p)))) /\
  delivers fut = true /\
  digest_lines (trace fut) =
    [(name p, hex (Blake2b.blake2b_512 (content p)))] /\
  error_lines (trace fut) = [].
Proof.
  intros Hp Hcs Ht fut.
  pose proof (process_file_outcome p verbose chunk_size) as Hout.
  rewrite (calculate_blake2b_readable p verbose (Some chunk_size) Hp Hcs Ht)
    in Hout.
  destruct Hp as (Hst & _).
  destruct (process_file_lines p verbose chunk_size Hst Ht)
    as (r & Hr & Hdel & Hdig & Herr).
  subst fut. rewrite Hout in Hr. 
  pose proof (f_equal (fun x : result (option string) =>
                         match x with Return a => a | Raise _ => None end)
                      Hr) as Hr'.
  cbv beta iota in Hr'. subst r.
  split; [exact Hout|]. split; [exact Hdel|]. split; [exact Hdig | exact Herr].
Qed.




(** ** blake2_sum4.py: the scan never sees its workers fail *)

Lemma process_file_v4_zero p verbose :
  open_error p = None ->
  filter is_report (trace (blake2_sum4.process_file p verbose 0)) = [] /\
  exists e, outcome (blake2_sum4.process_file p verbose 0) = Raise e.
Proof.
  intros Hop. unfold blake2_sum4.process_file.
  destruct (stat p) as [e|st_size] eqn:Hst.
  - unfold blake2_sum4.calculate_blake2b, path_stat. rewrite Hst.
    split; [reflexivity | eexists; reflexivity].
  - rewrite (calculate_blake2b_v4_zero _ _ _ Hst Hop).
    split; [reflexivity | eexists; reflexivity].
Qed.

Lemma sum4_check_run sched fs directory verbose ext chunk_size entries :
  fs directory = Listing entries ->
  blake2_sum4.check_blake2_sums sched fs directory verbose ext chunk_size =
  (concat
     (map trace
        (as_completed sched
           (map (fun file =>
                   submit (blake2_sum4.process_file file verbose
                             (default io.DEFAULT_BUFFER_SIZE chunk_size)))
                (filter (selected (default ".iso"%string ext)) entries)))),
   Return tt).
Proof.
  intros Hdir. unfold blake2_sum4.check_blake2_sums, is_dir, iterdir.
  rewrite Hdir. rewrite bind_ret. cbn [negb]. rewrite bind_ret. cbv zeta.
  unfold with_executor, ret. cbn [trace fst outcome snd].
  rewrite app_nil_r. reflexivity.
Qed.



(** ** The sequential scans of blake2_sum.py and blake2_sum3.py *)

Section ForEach.
Context {A : Type} (body : A -> M unit).

(** A loop whose iterations all return. *)
Lemma for_each_returns xs :
  (forall x, In x xs -> outcome (body x) = Return tt) ->
  for_each xs body = (flat_map (fun x => trace (body x)) xs, Return tt).
Proof.
  induction xs as [|x xs IH]; intros Hall; [reflexivity|].
  cbn [for_each flat_map].
  pose proof (Hall x (or_introl eq_refl)) as Hx.
  destruct (body x) as [tr r]. cbn in Hx. subst r.
  unfold bind. rewrite IH by (intros y Hy; apply Hall; now right).
  reflexivity.
Qed.

(** An iteration that raises ends the loop. *)
Lemma for_each_raises pre x post e :
  (forall y, In y pre -> outcome (body y) = Return tt) ->
  outcome (body x) = Raise e ->
  for_each (pre ++ x :: post) body =
  ((trace (for_each pre body) ++ trace (body x))%list, Raise e).
Proof.
  induction pre as [|y pre IH]; intros Hpre Hx.
  - cbn [app for_each]. destruct (body x) as [tr r]. cbn in Hx. subst r.
    reflexivity.
  - cbn [app for_each].
    pose proof (Hpre y (or_introl eq_refl)) as Hy.
    destruct (body y) as [tr r]. cbn in Hy. subst r.
    unfold bind.
    rewrite IH by (try assumption; intros z Hz; apply Hpre; now right).
    destruct (for_each pre body) as [tr' r']. cbn [trace fst].
    rewrite app_assoc. reflexivity.
Qed.
End ForEach.

Lemma flat_map_filter_nil {X} (P : event -> bool) (g : event -> list X) tr :
  (forall ev, P ev = false -> g ev = []) ->
  filter P tr = [] -> flat_map g tr = [].
Proof.
  intros Hg. induction tr as [|ev tr IH]; [reflexivity|].
  cbn [filter flat_map]. destruct (P ev) eqn:E; [discriminate|].
  intros H. rewrite (Hg ev E), IH by assumption. reflexivity.
Qed.

(** blake2_sum.py: [calculate_blake2b] prints nothing and never raises. *)
Lemma calculate_blake2b_v1_text p :
  read_error p = None ->
  printed_lines (trace (blake2_sum.calculate_blake2b p)) = [] /\
  outcome (blake2_sum.calculate_blake2b p) =
  Return match open_error p with
         | Some e => ("Error: " ++ e)%string
         | None => hex (Blake2b.blake2b_512 (content p))
         end.
Proof.
  intros Hrd. destruct (open_error p) as [e|] eqn:Hop.
  - rewrite (calculate_blake2b_v1_open_fails _ _ Hop). split; reflexivity.
  - split; [|now apply calculate_blake2b_v1_readable].
    rewrite (calculate_blake2b_v1_run _ Hop). cbv zeta.
    pose proof (read_chunks_quiet is_print blake2_sum.after_chunk
                  io.DEFAULT_BUFFER_SIZE (opened p) 0 hashlib.blake2b
                  (fun _ _ => eq_refl) (fun _ _ => eq_refl)) as Hquiet.
    apply (flat_map_filter_nil is_print).
    + intros [] H; try reflexivity. discriminate H.
    + destruct (outcome _) as [blake2|[e|e|e|e|]]; cbn [trace fst filter is_print];
        rewrite filter_app, Hquiet; reflexivity.
Qed.



Lemma after_chunk_v3_quiet (P : event -> bool) verbose :
  (forall l i n, P (Log l (ProcessedChunk i n)) = false) ->
  forall i chunk, filter P (blake2_sum3.after_chunk verbose i chunk) = [].
Proof.
  intros HP i chunk. unfold blake2_sum3.after_chunk.
  destruct verbose; cbn [filter]; rewrite ?HP; reflexivity.
Qed.

Lemma sum3_check_run fs directory verbose entries :
  fs directory = Listing entries ->
  blake2_sum3.check_blake2_sums fs directory verbose =
  for_each entries (sum3_step verbose).
Proof.
  intros Hdir. unfold blake2_sum3.check_blake2_sums, is_dir, iterdir.
  rewrite Hdir. rewrite bind_ret. cbn [negb]. rewrite bind_ret. reflexivity.
Qed.

(** A file whose [stat] succeeds never makes the step raise. *)
Lemma sum3_step_returns verbose f :
  (selected ".iso" f = true -> exists st_size, stat f = inr st_size) ->
  outcome (sum3_step verbose f) = Return tt.
Proof.
  intros Hst. unfold sum3_step. fold (selected ".iso" f).
  destruct (selected ".iso" f); [|reflexivity].
  destruct (Hst eq_refl) as [st_size Hstat].
  rewrite outcome_bind.
  destruct (open_error f) as [e|] eqn:Hop.
  - rewrite (calculate_blake2b_v3_open_fails _ _ _ _ Hstat Hop). reflexivity.
  - rewrite (calculate_blake2b_v3_run _ _ _ Hstat Hop). cbv zeta.
    destruct (outcome (read_chunks _ _ _ _ _)) as [blake2|err] eqn:Hloop.
    + cbn [outcome snd].
      rewrite (hexdigest_truthy _ (read_chunks_outlen _ _ _ _ _ _ Hloop)).
      reflexivity.
    + destruct (read_chunks_raises _ _ _ _ _ _ (refused_default _) Hloop)
        as [s ->].
      reflexivity.
Qed.

Lemma sum3_step_readable verbose f :
  (selected ".iso" f = true -> readable f) ->
  outcome (sum3_step verbose f) = Return tt /\
  digest_lines (trace (sum3_step verbose f)) =
    (if selected ".iso" f
     then [(name f, hex (Blake2b.blake2b_512 (content f)))] else []) /\
  error_lines (trace (sum3_step verbose f)) = [].
Proof.
  intros Hread. unfold sum3_step. fold (selected ".iso" f).
  destruct (selected ".iso" f); [|repeat split].
  destruct (Hread eq_refl) as ([st_size Hst] & Hop & Hrd).
  rewrite (calculate_blake2b_v3_run _ _ _ Hst Hop). cbv zeta.
  pose proof (read_chunks_quiet is_report (blake2_sum3.after_chunk verbose)
                io.DEFAULT_BUFFER_SIZE (opened f) 0 hashlib.blake2b
                (fun _ _ => eq_refl)
                (after_chunk_v3_quiet is_report verbose
                   (fun _ _ _ => eq_refl))) as Hquiet.
  pose proof (read_chunks_outcome (blake2_sum3.after_chunk verbose)
                io.DEFAULT_BUFFER_SIZE (opened f) 0 hashlib.blake2b
                Hrd (or_introl eq_refl) (refused_default _)) as Hloop.
  rewrite Hloop. cbn [outcome snd opened data].
  rewrite hexdigest_update.
  set (digest := hex (Blake2b.blake2b_512 (content f))).
  assert (Ht : truthy (Some digest) = true).
  { subst digest. rewrite <- hexdigest_update.
    apply hexdigest_truthy.
    rewrite (outlen_update hashlib.blake2b (content f) :
               Blake2b.outlen (hashlib.update _ _) = _).
    reflexivity. }
  unfold bind. cbn [ret app]. rewrite Ht.
  unfold logging_info, emit. cbn [trace fst outcome snd default].
  rewrite digest_lines_reports, error_lines_reports.
  cbn [filter is_report]. rewrite !filter_app, Hquiet. repeat split.
Qed.





(** ** Targets that are no extension *)

Lemma from_last_dot_shape s r :
  from_last_dot s = Some r -> exists t, r = String "." t.
Proof.
  revert r. induction s as [|ch s IH]; intros r; [discriminate|].
  cbn [from_last_dot].
  destruct (from_last_dot s) as [r'|].
  - intros [= <-]. now apply IH.
  - destruct (Ascii.eqb_spec ch "."%char) as [->|]; [|discriminate].
    intros [= <-]. eauto.
Qed.

(** [Path.suffix] is empty, or a dot followed by at least one character. *)
Lemma suffix_shape name :
  suffix name = EmptyString \/
  exists ch t, suffix name = String "." (String ch t).
Proof.
  unfold suffix. destruct name as [|c0 tl]; [now left|].
  destruct (from_last_dot tl) as [r|] eqn:Hr; [|now left].
  destruct (from_last_dot_shape _ _ Hr) as [t ->].
  destruct t as [|ch t]; [now left|]. right. cbn. eauto.
Qed.

Lemma lower_empty s : lower s = EmptyString -> s = EmptyString.
Proof. destruct s; [reflexivity | discriminate]. Qed.

Lemma matching_files_no_dot entries ch t :
  ch <> "."%char \/ t = EmptyString ->
  blake2b_1.matching_files entries (String ch t) = [].
Proof.
  intros Hext. unfold blake2b_1.matching_files.
  induction entries as [|f entries IH]; [reflexivity|].
  cbn [filter]. rewrite IH.
  destruct (String.eqb_spec (lower (suffix (name f))) (String ch t))
    as [E|E]; [|rewrite andb_false_r; reflexivity].
  exfalso.
  destruct (suffix_shape (name f)) as [H0 | (c1 & t1 & H1)].
  - rewrite H0 in E. discriminate.
  - rewrite H1 in E. cbn [lower] in E. injection E as Ech Et.
    destruct Hext as [Hch | Ht].
    + apply Hch. rewrite <- Ech. reflexivity.
    + rewrite Ht in Et. discriminate.
Qed.



(** ** Scans in which every worker delivers a digest *)

Lemma digests_of_tasks (sched : scheduler) {A} (task : A -> future (option string))
      (d : A -> string * string) (xs : list A) :
  fair sched ->
  (forall x, In x xs ->
             digest_lines (trace (task x)) = [d x] /\
             error_lines (trace (task x)) = []) ->
  let workers := concat (map trace (as_completed sched (map task xs))) in
  Permutation (digest_lines workers) (map d xs) /\
  error_lines workers = [].
Proof.
  intros Hfair Hall workers. subst workers. split.
  - rewrite (lines_of_tasks _ _ : digest_lines _ = _).
    replace (map d xs)
      with (flat_map (fun fut => digest_lines (trace fut)) (map task xs)).
    + apply Permutation_flat_map. apply Hfair.
    + induction xs as [|x xs IH]; [reflexivity|].
      cbn [map flat_map]. rewrite (proj1 (Hall x (or_introl eq_refl))).
      rewrite IH by (intros y Hy; apply Hall; now right). reflexivity.
  - rewrite (lines_of_tasks _ _ : error_lines _ = _).
    assert (H : Forall (fun fut : future (option string) =>
                          error_lines (trace fut) = [])
                       (as_completed sched (map task xs))).
    { apply fair_Forall; [assumption|].
      apply Forall_map, Forall_forall. intros x Hx. apply Hall, Hx. }
    induction H as [|fut l He _ IH]; [reflexivity|].
    cbn [flat_map]. unfold error_lines in He. rewrite He, IH. reflexivity.
Qed.

(** blake2b_1.py with a chunk size of 0, one worker. *)
Lemma process_file_zero p verbose :
  readable p ->
  let fut := blake2b_1.process_file p verbose 0 in
  outcome fut = Return (Some (hex (Blake2b.blake2b_512 []))) /\
  delivers fut = true /\
  digest_lines (trace fut) = [(name p, hex (Blake2b.blake2b_512 []))] /\
  error_lines (trace fut) = [].
Proof.
  intros Hp fut.
  pose proof (process_file_outcome p verbose 0) as Hout.
  rewrite (calculate_blake2b_zero p verbose Hp) in Hout.
  destruct Hp as (Hst & _).
  destruct (process_file_lines p verbose 0 Hst (takes_zero p))
    as (r & Hr & Hdel & Hdig & Herr).
  subst fut. rewrite Hout in Hr.
  pose proof (f_equal (fun x : result (option string) =>
                         match x with Return a => a | Raise _ => None end)
                      Hr) as Hr'.
  cbv beta iota in Hr'. subst r.
  split; [exact Hout|]. split; [exact Hdel|]. split; [exact Hdig | exact Herr].
Qed.



(** ** blake2_sum4.py: a scan of readable files *)

Lemma after_chunk_v4_quiet (P : event -> bool) verbose :
  (forall n, P (PbarUpdate n) = false) ->
  forall i chunk, filter P (blake2_sum4.after_chunk verbose i chunk) = [].
Proof.
  intros HP i chunk. unfold blake2_sum4.after_chunk.
  destruct verbose; cbn [filter]; rewrite ?HP; reflexivity.
Qed.

Lemma summary_lines_of_futures {A} (l : list (future A)) :
  Forall (fun fut => filter is_summary (trace fut) = []) l ->
  filter is_summary (concat (map trace l)) = [].
Proof.
  induction 1 as [|fut l H _ IH]; [reflexivity|].
  cbn [map concat]. rewrite filter_app, H, IH. reflexivity.
Qed.

Lemma lines_of_futures {X A} (g : event -> list X) (l : list (future A)) :
  flat_map g (concat (map trace l)) =
  flat_map (fun fut => flat_map g (trace fut)) l.
Proof.
  induction l as [|fut l IH]; [reflexivity|].
  cbn [map concat flat_map]. rewrite flat_map_app, IH. reflexivity.
Qed.

Lemma process_file_v4_readable p verbose chunk_size :
  readable p -> 0 < chunk_size \/ chunk_size = -1 ->
  takes p chunk_size ->
  let fut := blake2_sum4.process_file p verbose chunk_size in
  outcome fut = Return tt /\
  filter is_report (trace fut) =
    [Log INFO (DigestLine (name p) (hex (Blake2b.blake2b_512 (content p))))] /\
  filter is_summary (trace fut) = [].
Proof.
  intros ([st_size Hst] & Hop & Hrd) Hcs Htakes fut. subst fut.
  apply takes_opened in Htakes.
  unfold blake2_sum4.process_file.
  rewrite (calculate_blake2b_v4_run _ _ _ _ Hst Hop) by (cbn [default]; lia).
  cbv zeta. cbn [default].
  set (loop := read_chunks (blake2_sum4.after_chunk verbose) chunk_size
                           (opened p) 0 hashlib.blake2b).
  pose proof (read_chunks_quiet is_report (blake2_sum4.after_chunk verbose)
                chunk_size (opened p) 0 hashlib.blake2b
                (fun _ _ => eq_refl)
                (after_chunk_v4_quiet is_report verbose (fun _ => eq_refl)))
    as Hquiet.
  pose proof (read_chunks_quiet is_summary (blake2_sum4.after_chunk verbose)
                chunk_size (opened p) 0 hashlib.blake2b
                (fun _ _ => eq_refl)
                (after_chunk_v4_quiet is_summary verbose (fun _ => eq_refl)))
    as Hquiet'.
  fold loop in Hquiet, Hquiet'.
  pose proof (read_chunks_outcome (blake2_sum4.after_chunk verbose)
                chunk_size (opened p) 0 hashlib.blake2b Hrd Hcs Htakes)
    as Hloop.
  fold loop in Hloop. rewrite Hloop.
  cbn [opened data]. rewrite hexdigest_update.
  unfold bind. cbn [outcome snd trace fst].
  assert (Ht : truthy (Some (hex (Blake2b.blake2b_512 (content p)))) = true).
  { rewrite <- hexdigest_update. apply hexdigest_truthy.
    unfold hashlib.update. rewrite outlen_update. reflexivity. }
  rewrite Ht. unfold logging_info, emit. cbn [outcome snd trace fst default].
  split; [reflexivity|].
  rewrite !filter_app, Hquiet, Hquiet'. cbn [filter is_report is_summary app].
  split; reflexivity.
Qed.



(** ** The verbose flag *)

Lemma read_chunks_step after size f n blake2 :
  read_chunks after size f n blake2 =
  match read f size with
  | (Raise e, _) => ([IoRead (path (h_file f)) size], Raise e)
  | (Return [], _) => ([IoRead (path (h_file f)) size], Return blake2)
  | (Return chunk, f') =>
      bind (IoRead (path (h_file f)) size :: after (S n) chunk, Return tt)
           (fun _ => read_chunks after size f' (S n)
                                 (hashlib.update blake2 chunk))
  end.
Proof.
  funelim (read_chunks after size f n blake2);
    match goal with
    | Hr : read _ _ = _ |- _ => rewrite Hr
    end; reflexivity.
Qed.

Lemma read_chunks_bar after after' size f n blake2 :
  (forall i chunk, filter not_progress (after i chunk) = after' i chunk) ->
  outcome (read_chunks after size f n blake2) =
    outcome (read_chunks after' size f n blake2) /\
  filter not_progress (trace (read_chunks after size f n blake2)) =
    trace (read_chunks after' size f n blake2).
Proof.
  funelim (read_chunks after size f n blake2); intros Hbar;
    rewrite (read_chunks_step after');
    match goal with
    | Hr : read _ _ = _ |- _ => rewrite Hr
    end.
  - split; reflexivity.
  - rewrite !outcome_bind, !trace_bind. cbn [outcome snd trace fst].
    destruct (H tt after' Hbar) as [Ho Ht].
    split; [exact Ho|].
    cbn [filter not_progress app].
    rewrite filter_app, Hbar, Ht. reflexivity.
  - split; reflexivity.
Qed.

Lemma after_chunk_bar i chunk :
  filter not_progress (blake2b_1.after_chunk true i chunk) =
  blake2b_1.after_chunk false i chunk.
Proof. reflexivity. Qed.

Lemma calculate_blake2b_bar p chunk_size :
  outcome (blake2b_1.calculate_blake2b p true chunk_size) =
    outcome (blake2b_1.calculate_blake2b p false chunk_size) /\
  filter not_progress (trace (blake2b_1.calculate_blake2b p true chunk_size)) =
    trace (blake2b_1.calculate_blake2b p false chunk_size).
Proof.
  destruct (stat p) as [e|st_size] eqn:Hst.
  { rewrite !(calculate_blake2b_stat_fails _ _ _ _ Hst). split; reflexivity. }
  destruct (open_error p) as [e|] eqn:Hop.
  { rewrite !(calculate_blake2b_open_fails _ _ _ _ _ Hst Hop).
    split; reflexivity. }
  rewrite !(calculate_blake2b_run _ _ _ _ Hst Hop). cbv zeta.
  destruct (read_chunks_bar (blake2b_1.after_chunk true)
              (blake2b_1.after_chunk false)
              (default io.DEFAULT_BUFFER_SIZE chunk_size) (opened p) 0
              hashlib.blake2b after_chunk_bar) as [Ho Ht].
  rewrite <- Ho, <- Ht.
  destruct (outcome (read_chunks (blake2b_1.after_chunk true) _ _ _ _))
    as [blake2|[e|e|e|e|]];
    cbn [outcome snd trace fst];
    (split; [reflexivity|]);
    cbn [app filter not_progress]; rewrite filter_app; reflexivity.
Qed.

(** X16. blake2b_1.py: the verbose flag changes nothing but the progress
    bar. For every file and every chunk size, whatever fails, a worker run
    with [verbose] returns or raises what it does without, and its trace
    (system calls and log lines, in order) is the one of the quiet run
    once the updates of the bar are left out. *)
Theorem verbose_only_adds_progress p chunk_size :
  outcome (blake2b_1.process_file p true chunk_size) =
    outcome (blake2b_1.process_file p false chunk_size) /\
  filter not_progress (trace (blake2b_1.process_file p true chunk_size)) =
    trace (blake2b_1.process_file p false chunk_size).
Proof.
  rewrite !process_file_run. cbv zeta.
  destruct (calculate_blake2b_bar p (Some chunk_size)) as [Ho Ht].
  rewrite <- Ho, <- Ht.
  destruct (outcome (blake2b_1.calculate_blake2b p true (Some chunk_size)))
    as [r|e]; cbn [outcome snd trace fst]; [|split; reflexivity].
  split; [reflexivity|].
  rewrite filter_app. f_equal.
  destruct (truthy r); reflexivity.
Qed.

(** ** Directories that cannot be examined or listed *)

Lemma is_dir_raises fs directory e :
  fs directory = NoAccess e -> is_dir fs directory = raise (OSError e).
Proof. unfold is_dir. intros ->. reflexivity. Qed.

(** X17. No variant guards [is_dir()] or [iterdir()]: when [is_dir()]
    raises, or when it answers True and the entries of the directory
    cannot be read, the [OSError] leaves [check_blake2_sums] before
    anything is logged or hashed, and the process of blake2b_1.py exits
    with code 1; blake2_sum.py, which does not call [is_dir()], raises
    also for a path that is no directory. *)
Theorem unlistable_directory_ends_the_scan sched fs directory verbose ext
        chunk_size e :
  (fs directory = NoListing e \/ fs directory = NoAccess e ->
   blake2b_1.check_blake2_sums sched fs directory verbose ext chunk_size =
     ([], Raise (OSError e)) /\
   blake2_sum3.check_blake2_sums fs directory verbose =
     ([], Raise (OSError e)) /\
   blake2_sum4.check_blake2_sums sched fs directory verbose ext chunk_size =
     ([], Raise (OSError e)) /\
   exit_code (blake2b_1.main sched fs (Some directory) verbose ext
                chunk_size) = 1) /\
  (fs directory = NoDirectory e \/ fs directory = NoListing e \/
   fs directory = NoAccess e ->
   blake2_sum.check_blake2_sums fs directory = ([], Raise (OSError e))).
Proof.
  split.
  - intros Hdir.
    assert (H1 : blake2b_1.check_blake2_sums sched fs directory verbose ext
                   chunk_size = ([], Raise (OSError e))).
    { unfold blake2b_1.check_blake2_sums, is_dir, iterdir.
      destruct Hdir as [-> | ->]; reflexivity. }
    split; [exact H1|]. split; [|split].
    + unfold blake2_sum3.check_blake2_sums, is_dir, iterdir.
      destruct Hdir as [-> | ->]; reflexivity.
    + unfold blake2_sum4.check_blake2_sums, is_dir, iterdir.
      destruct Hdir as [-> | ->]; reflexivity.
    + rewrite main_run. cbv zeta. cbn [default].
      unfold exit_code. cbn [outcome snd].
      destruct Hdir as [Hdir | Hdir];
        unfold blake2b_1.check_blake2_sums, is_dir, iterdir;
        rewrite Hdir; reflexivity.
  - intros Hdir. unfold blake2_sum.check_blake2_sums, iterdir.
    destruct Hdir as [-> | [-> | ->]]; reflexivity.
Qed.

(** A directory whose entries cannot be read. *)
Lemma unlistable_directory_ends_the_scan_witness :
  let fs : filesystem := fun _ => NoListing "Permission denied" in
  fs "isos"%string = NoListing "Permission denied" /\
  is_dir fs "isos" = ret true /\
  blake2b_1.main in_order fs (Some "isos"%string) false None None =
    ([], Raise (OSError "Permission denied")) /\
  exit_code (blake2b_1.main in_order fs (Some "isos"%string) false None
               None) = 1.
Proof.
  intros fs.
  destruct (unlistable_directory_ends_the_scan in_order fs "isos" false
              (Some ".iso"%string) (Some io.DEFAULT_BUFFER_SIZE)
              "Permission denied") as [H _].
  destruct (H (or_introl eq_refl)) as (Hrun & _ & _ & _).
  split; [reflexivity|]. split; [reflexivity|].
  assert (Hmain : blake2b_1.main in_order fs (Some "isos"%string) false
                    None None = ([], Raise (OSError "Permission denied"))).
  { rewrite main_run. cbv zeta. cbn [default].
    rewrite Hrun. reflexivity. }
  split; [exact Hmain|]. rewrite Hmain. reflexivity.
Defined.
